(** * fb_ads_library_api_cli.py: argument validation, multi-term
      orchestration and action dispatch

    A shallow embedding of [src/python/fb_ads_library_api_cli.py] and the
    properties its specification states about it.

    Conventions.
    - A Python [str] is a sequence of Unicode code points: [pystr] is
      [list N].  [py "..."] injects an ASCII literal.
    - A function that may raise returns a [result]; code that prints, runs
      traversals or calls an output handler lives in the state-and-exception
      monad [M] over [world].
    - Python dicts are insertion-ordered association lists; the ad records
      the traversal yields are objects in a store ([heap]) and are handled
      by reference ([loc]), because the orchestrator tags them in place.
    - The helpers imported from the sibling modules [fb_ads_library_api],
      [fb_ads_library_api_operators] and [fb_ads_library_api_utils] are not
      part of this file; they are Section variables.
    - [parse_args] is argparse's; the command line is taken as argparse cuts
      it ([invocation]), and what argparse does with each piece -- the help
      option, conversions, usage errors -- is written out. *)

From Stdlib Require Import String Ascii List ZArith NArith Bool Lia.
Import ListNotations.

Set Implicit Arguments.

(** ** Python strings *)

Definition pystr := list N.

Definition py (s : string) : pystr := map N_of_ascii (list_ascii_of_string s).

Definition comma : N := 44%N.

(** [str.isspace] for one code point (CPython's [_PyUnicode_IsWhitespace]). *)
Definition isspace (c : N) : bool :=
  ((9 <=? c) && (c <=? 13) || (28 <=? c) && (c <=? 32)
   || (c =? 133) || (c =? 160) || (c =? 5760)
   || (8192 <=? c) && (c <=? 8202)
   || (c =? 8232) || (c =? 8233) || (c =? 8239) || (c =? 8287)
   || (c =? 12288))%N.

Fixpoint lstrip (s : pystr) : pystr :=
  match s with
  | [] => []
  | c :: s' => if isspace c then lstrip s' else s
  end.

Definition rstrip (s : pystr) : pystr := rev (lstrip (rev s)).

(** [s.strip()] *)
Definition strip (s : pystr) : pystr := rstrip (lstrip s).

(** [s.split(sep)] for a one-character separator: never returns the empty
    list, [split sep "" = [""]]. *)
Fixpoint split (sep : N) (s : pystr) : list pystr :=
  match s with
  | [] => [[]]
  | c :: s' =>
      if (c =? sep)%N then [] :: split sep s'
      else match split sep s' with
           | t :: ts => (c :: t) :: ts
           | [] => [[c]]
           end
  end.

(** [sep.join(l)] *)
Fixpoint join (sep : pystr) (l : list pystr) : pystr :=
  match l with
  | [] => []
  | [x] => x
  | x :: l' => x ++ sep ++ join sep l'
  end.

(** Truth value of a [str]: non-empty. *)
Definition str_truthy (s : pystr) : bool :=
  match s with [] => false | _ :: _ => true end.

(** Truth value of a [list] (and of a [dict]): non-empty. *)
Definition list_truthy {A} (l : list A) : bool :=
  match l with [] => false | _ :: _ => true end.

Fixpoint str_eqb (a b : pystr) : bool :=
  match a, b with
  | [], [] => true
  | x :: a', y :: b' => (x =? y)%N && str_eqb a' b'
  | _, _ => false
  end.

Fixpoint str_in (x : pystr) (l : list pystr) : bool :=
  match l with
  | [] => false
  | y :: l' => str_eqb x y || str_in x l'
  end.

(** [t] occurs in [s] as a contiguous substring. *)
Definition mentions (s t : pystr) : Prop := exists a b, s = a ++ t ++ b.

(** ** Python values, exceptions, results *)

#[local] Unset Elimination Schemes.
Inductive pyval :=
| PyNone
| PyBool (b : bool)
| PyInt (z : Z)
| PyStr (s : pystr)
| PyList (l : list pyval)
| PyDict (d : list (pystr * pyval)).
#[local] Set Elimination Schemes.

Definition truthy (v : pyval) : bool :=
  match v with
  | PyNone => false
  | PyBool b => b
  | PyInt z => negb (z =? 0)%Z
  | PyStr s => str_truthy s
  | PyList l => list_truthy l
  | PyDict d => list_truthy d
  end.

Inductive exn :=
| ArgumentTypeError (msg : pystr)
| AttributeError (attr : pystr)
| TypeError
| TraversalFailure (e : pystr)
| SystemExit (code : Z).

Inductive result (A : Type) :=
| Return (a : A)
| Raise (e : exn).
Arguments Return {A} a.
Arguments Raise {A} e.

(** ** Insertion-ordered dicts *)

Section Dict.
Variable V : Type.

Definition pydict := list (pystr * V).

(** [d[k] = v]: an existing key keeps its position, a new one goes last. *)
Fixpoint dict_set (k : pystr) (v : V) (d : pydict) : pydict :=
  match d with
  | [] => [(k, v)]
  | (k', v') :: d' =>
      if str_eqb k k' then (k', v) :: d' else (k', v') :: dict_set k v d'
  end.

Fixpoint dict_get (k : pystr) (d : pydict) : option V :=
  match d with
  | [] => None
  | (k', v') :: d' => if str_eqb k k' then Some v' else dict_get k d'
  end.

Definition dict_keys (d : pydict) : list pystr := map fst d.

(** [{k: v for (k, v) in pairs}] *)
Definition dict_of_pairs (pairs : list (pystr * V)) : pydict :=
  fold_left (fun d kv => dict_set (fst kv) (snd kv) d) pairs [].
End Dict.

Definition is_none {A} (o : option A) : bool :=
  match o with None => true | Some _ => false end.

(** [sep.join(l)] where [l] may hold [None]: joining a non-[str] raises. *)
Fixpoint all_str (l : list (option pystr)) : option (list pystr) :=
  match l with
  | [] => Some []
  | None :: _ => None
  | Some s :: l' =>
      match all_str l' with Some r => Some (s :: r) | None => None end
  end.

Definition join_values (sep : pystr) (l : list (option pystr)) : result pystr :=
  match all_str l with
  | Some ss => Return (join sep ss)
  | None => Raise TypeError
  end.

(** ** The vocabulary validators (lines 68-103) *)

Section Validators.
(** [fb_ads_library_api_utils.get_country_code]: the normalized code, or
    [None] for an input it does not know. *)
Variable get_country_code : pystr -> option pystr.
(** [fb_ads_library_api_utils.is_valid_fields] *)
Variable is_valid_fields : pystr -> bool.

(** Line 71: the tokens kept are the ones whose [strip()] is non-empty;
    the tokens themselves are kept as written. *)
Definition country_list_of (country_input : pystr) : list pystr :=
  filter (fun x => str_truthy (strip x)) (split comma country_input).

(** Lines 75-79. *)
Definition invalid_inputs_of (country_list : list pystr)
  : pydict (option pystr) :=
  dict_of_pairs
    (filter (fun kv => is_none (snd kv))
       (combine country_list (map get_country_code country_list))).

Definition validate_country_param (country_input : pystr) : result pystr :=
  if negb (str_truthy country_input) then Return []
  else
    let country_list := country_list_of country_input in
    if negb (list_truthy country_list) then
      Raise (ArgumentTypeError (py "Country cannot be empty"))
    else
      let valid_country_codes := map get_country_code country_list in
      let invalid_inputs := invalid_inputs_of country_list in
      if list_truthy invalid_inputs then
        Raise (ArgumentTypeError
                 (py "Invalid/unsupported country code: "
                  ++ join (py ",") (dict_keys invalid_inputs)))
      else join_values (py ",") valid_country_codes.

(** Lines 92-94: here every token is stripped first, then the empty ones
    are dropped. *)
Definition fields_list_of (fields_input : pystr) : list pystr :=
  filter str_truthy (map strip (split comma fields_input)).

Definition validate_fields_param (fields_input : pystr) : result pyval :=
  if negb (str_truthy fields_input) then Return (PyBool false)
  else
    let fields_list := fields_list_of fields_input in
    if negb (list_truthy fields_list) then
      Raise (ArgumentTypeError (py "Fields cannot be empty"))
    else
      let invalid_fields :=
        filter (fun x => negb (is_valid_fields x)) fields_list in
      if negb (list_truthy invalid_fields) then
        Return (PyStr (join (py ",") fields_list))
      else
        Raise (ArgumentTypeError
                 (py "Unsupported fields: " ++ join (py ",") invalid_fields)).
End Validators.

(** A sample reference table and field vocabulary for the worked examples. *)

(** Modelled from the spec: [get_country_code] (in
    [fb_ads_library_api_utils], not in this file) "maps each token through a
    closed country-name/code reference table"; a lookup of the token as
    given. *)
Fixpoint table_lookup (table : list (pystr * pystr)) (x : pystr)
  : option pystr :=
  match table with
  | [] => None
  | (k, v) :: table' => if str_eqb x k then Some v else table_lookup table' x
  end.

Definition sample_countries : list (pystr * pystr) :=
  [ (py "US", py "US"); (py "us", py "US");
    (py "UK", py "GB"); (py "uk", py "GB"); (py "GB", py "GB") ].

Definition sample_fields : list pystr :=
  [ py "id"; py "page_id"; py "ad_creative_body" ].

Definition sample_get_country_code : pystr -> option pystr :=
  table_lookup sample_countries.

Definition sample_is_valid_fields (x : pystr) : bool :=
  str_in x sample_fields.

(** ** The process: store, output streams, collaborators' call logs *)

(** Ad records are Python dict objects owned by the traversal; the
    orchestrator holds references to them. *)
Definition loc := nat.
Definition record := pydict pyval.

(** The traversal request object.  The first four attributes are the
    constructor's arguments (line 120); the other five are the attributes
    [main] may overwrite (lines 123-132): [None] stands for "left as the
    constructor set it", the class and its defaults being outside this
    file. *)
Record FbAdsLibraryTraversal := {
  api_access_token : pystr;
  api_fields : pystr;
  api_search_term : pystr;
  api_country : pystr;
  api_search_page_ids : option pystr;
  api_ad_active_status : option pystr;
  api_page_limit : option Z;
  api_retry_limit : option Z;
  api_after_date : option pystr
}.

(** One invocation of an output handler: the records as the handler sees
    them when it is called, the positional arguments, the field
    specification ([save_to_csv] only) and the verbosity flag. *)
Record handler_call := {
  hc_action : pystr;
  hc_records : list record;
  hc_args : list pystr;
  hc_fields : option pystr;
  hc_verbose : bool
}.

Record world := {
  heap : loc -> record;
  stdout : list pystr;
  stderr : list pystr;
  traversals : list FbAdsLibraryTraversal;
  handler_calls : list handler_call
}.

Definition heap_set (h : loc -> record) (l : loc) (r : record)
  : loc -> record :=
  fun l' => if Nat.eqb l' l then r else h l'.

Definition with_heap (w : world) (h : loc -> record) : world :=
  {| heap := h; stdout := stdout w; stderr := stderr w;
     traversals := traversals w; handler_calls := handler_calls w |}.

Definition with_stdout (w : world) (out : list pystr) : world :=
  {| heap := heap w; stdout := out; stderr := stderr w;
     traversals := traversals w; handler_calls := handler_calls w |}.

Definition with_stderr (w : world) (err : list pystr) : world :=
  {| heap := heap w; stdout := stdout w; stderr := err;
     traversals := traversals w; handler_calls := handler_calls w |}.

Definition with_traversals (w : world) (ts : list FbAdsLibraryTraversal)
  : world :=
  {| heap := heap w; stdout := stdout w; stderr := stderr w;
     traversals := ts; handler_calls := handler_calls w |}.

Definition with_handler_calls (w : world) (cs : list handler_call) : world :=
  {| heap := heap w; stdout := stdout w; stderr := stderr w;
     traversals := traversals w; handler_calls := cs |}.

(** ** The state-and-exception monad *)

Definition M (A : Type) : Type := world -> result A * world.

Definition ret {A} (a : A) : M A := fun w => (Return a, w).

Definition bind {A B} (m : M A) (k : A -> M B) : M B :=
  fun w =>
    match m w with
    | (Return a, w') => k a w'
    | (Raise e, w') => (Raise e, w')
    end.

Definition raise {A} (e : exn) : M A := fun w => (Raise e, w).

Notation "x <- m ;; k" := (bind m (fun x => k))
  (at level 61, m at next level, right associativity).
Notation "m ;;; k" := (bind m (fun _ => k))
  (at level 61, right associativity).

(** [print(s)] *)
Definition print (s : pystr) : M unit :=
  fun w => (Return tt, with_stdout w (stdout w ++ [s])).

(** A line written to standard error. *)
Definition eprint (s : pystr) : M unit :=
  fun w => (Return tt, with_stderr w (stderr w ++ [s])).

(** [sys.exit(code)] *)
Definition sys_exit {A} (code : Z) : M A := raise (SystemExit code).

(** The status the interpreter ends the process with: 0 when [main]
    returns, the code of a [SystemExit], 1 (after a traceback) for any other
    exception that reaches the top. *)
Definition exit_status {A} (r : result A) : Z :=
  match r with
  | Return _ => 0
  | Raise (SystemExit code) => code
  | Raise _ => 1
  end.

(** ** The parsed options (lines 16-65) *)

(** The attributes [parse_args] puts on the namespace: one per
    [add_argument], named after its long option with [-] turned into [_].
    An optional flag that was not given is [None]. *)
Record Namespace := {
  access_token : pystr;
  fields : pyval;
  search_terms : option pystr;
  country : pystr;
  search_page_ids : option pystr;
  ad_active_status : option pystr;
  after_date : option pystr;
  batch_size : option Z;
  retry_limit : option Z;
  verbose : bool;
  action : pystr;
  args : list pystr
}.

Definition opt_str (o : option pystr) : pyval :=
  match o with None => PyNone | Some s => PyStr s end.

Definition opt_int (o : option Z) : pyval :=
  match o with None => PyNone | Some z => PyInt z end.

(** The attribute table of the namespace object. *)
Definition namespace_attrs (opts : Namespace) : pydict pyval :=
  [ (py "access_token", PyStr (access_token opts));
    (py "fields", fields opts);
    (py "search_terms", opt_str (search_terms opts));
    (py "country", PyStr (country opts));
    (py "search_page_ids", opt_str (search_page_ids opts));
    (py "ad_active_status", opt_str (ad_active_status opts));
    (py "after_date", opt_str (after_date opts));
    (py "batch_size", opt_int (batch_size opts));
    (py "retry_limit", opt_int (retry_limit opts));
    (py "verbose", PyBool (verbose opts));
    (py "action", PyStr (action opts));
    (py "args", PyList (map PyStr (args opts))) ].

(** [opts.<name>]: a name that is not an attribute raises. *)
Definition getattr (opts : Namespace) (name : pystr) : M pyval :=
  match dict_get name (namespace_attrs opts) with
  | Some v => ret v
  | None => raise (AttributeError name)
  end.

(** Truth value of an optional string or integer option. *)
Definition opt_str_truthy (o : option pystr) : bool := truthy (opt_str o).
Definition opt_int_truthy (o : option Z) : bool := truthy (opt_int o).

(** What argparse and the interpreter contribute: [int()] on a [str]
    ([None] stands for [ValueError]), [repr()] of a [str], the program name,
    and the usage and help texts argparse formats for the parser of lines
    17-64. *)
Record argparse_env := {
  py_int : pystr -> option Z;
  py_repr : pystr -> pystr;
  prog : pystr;
  usage_text : pystr;
  help_text : pystr
}.

(** The command line as argparse cuts it: the option occurrences that come
    before the positional [action], in the order they were written, then
    [action] (if there is one) and the remainder [args].
    [FlagRejected] is an argument argparse refuses when it reaches it, with
    the message of its usage error (an option without its value, a value
    given to [--verbose]); [FlagUnrecognized] is an option string that
    matches no option. *)
Inductive cli_flag :=
| FlagHelp
| FlagAccessToken (s : pystr)
| FlagFields (s : pystr)
| FlagSearchTerms (s : pystr)
| FlagCountry (s : pystr)
| FlagSearchPageIds (s : pystr)
| FlagAdActiveStatus (s : pystr)
| FlagAfterDate (s : pystr)
| FlagBatchSize (s : pystr)
| FlagRetryLimit (s : pystr)
| FlagVerbose
| FlagRejected (msg : pystr)
| FlagUnrecognized (s : pystr).

(** [inv_ambiguous] is the message for the first abbreviation, anywhere on
    the command line, that fits several options: argparse (CPython 3.11)
    looks every argument string up before it parses the first. *)
Record invocation := {
  inv_ambiguous : option pystr;
  inv_flags : list cli_flag;
  inv_action : option pystr;
  inv_args : list pystr
}.

(** The namespace while it is being filled: the three required options may
    still be missing; [p_extras] collects the unrecognized option
    strings. *)
Record partial_namespace := {
  p_access_token : option pystr;
  p_fields : option pyval;
  p_search_terms : option pystr;
  p_country : option pystr;
  p_search_page_ids : option pystr;
  p_ad_active_status : option pystr;
  p_after_date : option pystr;
  p_batch_size : option Z;
  p_retry_limit : option Z;
  p_verbose : bool;
  p_extras : list pystr
}.

Definition empty_namespace : partial_namespace :=
  {| p_access_token := None; p_fields := None; p_search_terms := None;
     p_country := None; p_search_page_ids := None;
     p_ad_active_status := None; p_after_date := None;
     p_batch_size := None; p_retry_limit := None; p_verbose := false;
     p_extras := [] |}.

Definition set_access_token (p : partial_namespace) (s : pystr)
  : partial_namespace :=
  {| p_access_token := Some s; p_fields := p_fields p;
     p_search_terms := p_search_terms p; p_country := p_country p;
     p_search_page_ids := p_search_page_ids p;
     p_ad_active_status := p_ad_active_status p;
     p_after_date := p_after_date p; p_batch_size := p_batch_size p;
     p_retry_limit := p_retry_limit p; p_verbose := p_verbose p;
     p_extras := p_extras p |}.

Definition set_fields (p : partial_namespace) (v : pyval)
  : partial_namespace :=
  {| p_access_token := p_access_token p; p_fields := Some v;
     p_search_terms := p_search_terms p; p_country := p_country p;
     p_search_page_ids := p_search_page_ids p;
     p_ad_active_status := p_ad_active_status p;
     p_after_date := p_after_date p; p_batch_size := p_batch_size p;
     p_retry_limit := p_retry_limit p; p_verbose := p_verbose p;
     p_extras := p_extras p |}.

Definition set_search_terms (p : partial_namespace) (s : pystr)
  : partial_namespace :=
  {| p_access_token := p_access_token p; p_fields := p_fields p;
     p_search_terms := Some s; p_country := p_country p;
     p_search_page_ids := p_search_page_ids p;
     p_ad_active_status := p_ad_active_status p;
     p_after_date := p_after_date p; p_batch_size := p_batch_size p;
     p_retry_limit := p_retry_limit p; p_verbose := p_verbose p;
     p_extras := p_extras p |}.

Definition set_country (p : partial_namespace) (s : pystr)
  : partial_namespace :=
  {| p_access_token := p_access_token p; p_fields := p_fields p;
     p_search_terms := p_search_terms p; p_country := Some s;
     p_search_page_ids := p_search_page_ids p;
     p_ad_active_status := p_ad_active_status p;
     p_after_date := p_after_date p; p_batch_size := p_batch_size p;
     p_retry_limit := p_retry_limit p; p_verbose := p_verbose p;
     p_extras := p_extras p |}.

Definition set_search_page_ids (p : partial_namespace) (s : pystr)
  : partial_namespace :=
  {| p_access_token := p_access_token p; p_fields := p_fields p;
     p_search_terms := p_search_terms p; p_country := p_country p;
     p_search_page_ids := Some s;
     p_ad_active_status := p_ad_active_status p;
     p_after_date := p_after_date p; p_batch_size := p_batch_size p;
     p_retry_limit := p_retry_limit p; p_verbose := p_verbose p;
     p_extras := p_extras p |}.

Definition set_ad_active_status (p : partial_namespace) (s : pystr)
  : partial_namespace :=
  {| p_access_token := p_access_token p; p_fields := p_fields p;
     p_search_terms := p_search_terms p; p_country := p_country p;
     p_search_page_ids := p_search_page_ids p;
     p_ad_active_status := Some s;
     p_after_date := p_after_date p; p_batch_size := p_batch_size p;
     p_retry_limit := p_retry_limit p; p_verbose := p_verbose p;
     p_extras := p_extras p |}.

Definition set_after_date (p : partial_namespace) (s : pystr)
  : partial_namespace :=
  {| p_access_token := p_access_token p; p_fields := p_fields p;
     p_search_terms := p_search_terms p; p_country := p_country p;
     p_search_page_ids := p_search_page_ids p;
     p_ad_active_status := p_ad_active_status p;
     p_after_date := Some s; p_batch_size := p_batch_size p;
     p_retry_limit := p_retry_limit p; p_verbose := p_verbose p;
     p_extras := p_extras p |}.

Definition set_batch_size (p : partial_namespace) (z : Z)
  : partial_namespace :=
  {| p_access_token := p_access_token p; p_fields := p_fields p;
     p_search_terms := p_search_terms p; p_country := p_country p;
     p_search_page_ids := p_search_page_ids p;
     p_ad_active_status := p_ad_active_status p;
     p_after_date := p_after_date p; p_batch_size := Some z;
     p_retry_limit := p_retry_limit p; p_verbose := p_verbose p;
     p_extras := p_extras p |}.

Definition set_retry_limit (p : partial_namespace) (z : Z)
  : partial_namespace :=
  {| p_access_token := p_access_token p; p_fields := p_fields p;
     p_search_terms := p_search_terms p; p_country := p_country p;
     p_search_page_ids := p_search_page_ids p;
     p_ad_active_status := p_ad_active_status p;
     p_after_date := p_after_date p; p_batch_size := p_batch_size p;
     p_retry_limit := Some z; p_verbose := p_verbose p;
     p_extras := p_extras p |}.

Definition set_verbose (p : partial_namespace) : partial_namespace :=
  {| p_access_token := p_access_token p; p_fields := p_fields p;
     p_search_terms := p_search_terms p; p_country := p_country p;
     p_search_page_ids := p_search_page_ids p;
     p_ad_active_status := p_ad_active_status p;
     p_after_date := p_after_date p; p_batch_size := p_batch_size p;
     p_retry_limit := p_retry_limit p; p_verbose := true;
     p_extras := p_extras p |}.

Definition add_extra (p : partial_namespace) (s : pystr)
  : partial_namespace :=
  {| p_access_token := p_access_token p; p_fields := p_fields p;
     p_search_terms := p_search_terms p; p_country := p_country p;
     p_search_page_ids := p_search_page_ids p;
     p_ad_active_status := p_ad_active_status p;
     p_after_date := p_after_date p; p_batch_size := p_batch_size p;
     p_retry_limit := p_retry_limit p; p_verbose := p_verbose p;
     p_extras := p_extras p ++ [s] |}.

(** How an argument ends the parse: the help action, a usage error with
    its message ([parser.error]), or an exception argparse does not
    catch. *)
Inductive parse_stop :=
| StopHelp
| StopUsage (msg : pystr)
| StopRaise (e : exn).

(** What [parse_args] comes to. *)
Inductive parse_outcome :=
| Parsed (opts : Namespace)
| HelpRequested
| UsageError (msg : pystr)
| Escapes (e : exn).

(** argparse's handling of a [type=] callable applied to the text [arg]: an
    [ArgumentTypeError] becomes the usage error
    "argument <option>: <message>", a [TypeError] (or [ValueError])
    "argument <option>: invalid <type> value: <repr of the text>"; any
    other exception is not caught. *)
Definition convert {A} (repr : pystr -> pystr)
    (option_name type_name arg : pystr) (r : result A) : parse_stop + A :=
  match r with
  | Return a => inr a
  | Raise (ArgumentTypeError msg) =>
      inl (StopUsage (py "argument " ++ option_name ++ py ": " ++ msg))
  | Raise TypeError =>
      inl (StopUsage (py "argument " ++ option_name ++ py ": invalid "
                      ++ type_name ++ py " value: " ++ repr arg))
  | Raise e => inl (StopRaise e)
  end.

(** [int(arg)] as a [type=] callable. *)
Definition convert_int (env : argparse_env) (option_name arg : pystr)
  : parse_stop + Z :=
  match py_int env arg with
  | Some z => inr z
  | None =>
      inl (StopUsage (py "argument " ++ option_name
                      ++ py ": invalid int value: " ++ py_repr env arg))
  end.

(** ** The program *)

Section Program.
(** [fb_ads_library_api_utils] *)
Variable get_country_code : pystr -> option pystr.
Variable is_valid_fields : pystr -> bool.
(** The interpreter and argparse. *)
Variable env : argparse_env.
(** The keys of [fb_ads_library_api_operators.get_operators()]. *)
Variable get_operators : list pystr.
(** [FbAdsLibraryTraversal.generate_ad_archives]: what the generator of
    the [n]-th traversal of the run yields for a request, batch by batch,
    and the failure it ends with, if any. *)
Variable generate_ad_archives :
  nat -> FbAdsLibraryTraversal -> list (list loc) * option pystr.

(** *** [get_parser] and [parse_args] (lines 16-65, 107-108) *)

(** One option occurrence.  [-h] is the help action argparse adds to every
    parser by default. *)
Definition parse_flag (p : partial_namespace) (f : cli_flag)
  : parse_stop + partial_namespace :=
  match f with
  | FlagHelp => inl StopHelp
  | FlagAccessToken s => inr (set_access_token p s)
  | FlagFields s =>
      match convert (py_repr env) (py "-f/--fields")
              (py "validate_fields_param") s
              (validate_fields_param is_valid_fields s) with
      | inl stop => inl stop
      | inr v => inr (set_fields p v)
      end
  | FlagSearchTerms s => inr (set_search_terms p s)
  | FlagCountry s =>
      match convert (py_repr env) (py "-c/--country")
              (py "validate_country_param") s
              (validate_country_param get_country_code s) with
      | inl stop => inl stop
      | inr v => inr (set_country p v)
      end
  | FlagSearchPageIds s => inr (set_search_page_ids p s)
  | FlagAdActiveStatus s => inr (set_ad_active_status p s)
  | FlagAfterDate s => inr (set_after_date p s)
  | FlagBatchSize s =>
      match convert_int env (py "--batch-size") s with
      | inl stop => inl stop
      | inr z => inr (set_batch_size p z)
      end
  | FlagRetryLimit s =>
      match convert_int env (py "--retry-limit") s with
      | inl stop => inl stop
      | inr z => inr (set_retry_limit p z)
      end
  | FlagVerbose => inr (set_verbose p)
  | FlagRejected msg => inl (StopUsage msg)
  | FlagUnrecognized s => inr (add_extra p s)
  end.

(** The flags are consumed left to right; the first one that stops the
    parse ends it. *)
Fixpoint parse_flags (p : partial_namespace) (fs : list cli_flag)
  : parse_stop + partial_namespace :=
  match fs with
  | [] => inr p
  | f :: fs' =>
      match parse_flag p f with
      | inl stop => inl stop
      | inr p' => parse_flags p' fs'
      end
  end.

(** The required arguments that were not given, as the usage error names
    them. *)
Definition missing_required (p : partial_namespace) (act : option pystr)
  : list pystr :=
  (if is_none (p_access_token p) then [py "-t/--access-token"] else [])
  ++ (if is_none (p_fields p) then [py "-f/--fields"] else [])
  ++ (if is_none (p_country p) then [py "-c/--country"] else [])
  ++ (if is_none act then [py "action"] else []).

(** After the last flag: the arguments declared [required=True] and the
    positional [action], then the unrecognized option strings. *)
Definition finish_parse (p : partial_namespace) (act : option pystr)
    (rest : list pystr) : parse_outcome :=
  match p_access_token p, p_fields p, p_country p, act with
  | Some t, Some f, Some c, Some a =>
      if list_truthy (p_extras p) then
        UsageError (py "unrecognized arguments: "
                    ++ join (py " ") (p_extras p))
      else
        Parsed {| access_token := t; fields := f;
                  search_terms := p_search_terms p; country := c;
                  search_page_ids := p_search_page_ids p;
                  ad_active_status := p_ad_active_status p;
                  after_date := p_after_date p;
                  batch_size := p_batch_size p;
                  retry_limit := p_retry_limit p;
                  verbose := p_verbose p; action := a; args := rest |}
  | _, _, _, _ =>
      UsageError (py "the following arguments are required: "
                  ++ join (py ", ") (missing_required p act))
  end.

Definition parse_args (inv : invocation) : parse_outcome :=
  match inv_ambiguous inv with
  | Some msg => UsageError msg
  | None =>
      match parse_flags empty_namespace (inv_flags inv) with
      | inl StopHelp => HelpRequested
      | inl (StopUsage msg) => UsageError msg
      | inl (StopRaise e) => Escapes e
      | inr p => finish_parse p (inv_action inv) (inv_args inv)
      end
  end.

(** [parser.error(msg)]: the usage text and "<prog>: error: <msg>" on
    standard error, then exit status 2. *)
Definition parser_error {A} (msg : pystr) : M A :=
  eprint (usage_text env) ;;;
  eprint (prog env ++ py ": error: " ++ msg) ;;;
  sys_exit 2.

(** The help action: the help text on standard output, then exit status
    0. *)
Definition parser_help {A} : M A :=
  print (help_text env) ;;; sys_exit 0.

(** *** Lines 110-112: the query-selector check *)

Definition check_query_selector (opts : Namespace) : M unit :=
  search_term <- getattr opts (py "search_term") ;;
  if negb (truthy search_term) && negb (opt_str_truthy (search_page_ids opts))
  then
    print (py "At least one must be set: --search-term, --search-page-ids") ;;;
    sys_exit 1
  else ret tt.

(** *** Lines 114-138: one traversal per search term *)

(** Line 114. *)
Definition search_terms_of (opts : Namespace) : list pystr :=
  if opt_str_truthy (search_terms opts) then
    match search_terms opts with
    | Some s => split comma s
    | None => [[]]
    end
  else [[]].

(** Line 115: [str + str]; a non-[str] right operand raises. *)
Definition fields_of (opts : Namespace) : M pystr :=
  match fields opts with
  | PyStr f => ret (py "search_term," ++ f)
  | _ => raise TypeError
  end.

(** Lines 120-132: the request for one (stripped) term. *)
Definition build_request (opts : Namespace) (fields_spec search_term : pystr)
  : FbAdsLibraryTraversal :=
  {| api_access_token := access_token opts;
     api_fields := fields_spec;
     api_search_term := search_term;
     api_country := country opts;
     api_search_page_ids :=
       if opt_str_truthy (search_page_ids opts) then search_page_ids opts
       else None;
     api_ad_active_status :=
       if opt_str_truthy (ad_active_status opts) then ad_active_status opts
       else None;
     api_page_limit :=
       if opt_int_truthy (batch_size opts) then batch_size opts else None;
     api_retry_limit :=
       if opt_int_truthy (retry_limit opts) then retry_limit opts else None;
     api_after_date :=
       if opt_str_truthy (after_date opts) then after_date opts else None |}.

(** Line 133 and the iteration of line 135: the traversal is run (and
    logged); its batches and its final failure, if any, come back. *)
Definition run_traversal (api : FbAdsLibraryTraversal)
  : M (list (list loc) * option pystr) :=
  fun w =>
    (Return (generate_ad_archives (length (traversals w)) api),
     with_traversals w (traversals w ++ [api])).

(** Line 137: [ad['search_term'] = search_term], on the object itself. *)
Definition tag (search_term : pystr) (ad : loc) : M unit :=
  fun w =>
    (Return tt,
     with_heap w
       (heap_set (heap w) ad
          (dict_set (py "search_term") (PyStr search_term) (heap w ad)))).

(** Lines 136-138. *)
Fixpoint for_ads (search_term : pystr) (ad_archives : list loc)
    (all_results : list loc) : M (list loc) :=
  match ad_archives with
  | [] => ret all_results
  | ad :: rest =>
      tag search_term ad ;;;
      for_ads search_term rest (all_results ++ [ad])
  end.

(** Lines 135-138. *)
Fixpoint for_batches (search_term : pystr) (batches : list (list loc))
    (all_results : list loc) : M (list loc) :=
  match batches with
  | [] => ret all_results
  | ad_archives :: rest =>
      all_results' <- for_ads search_term ad_archives all_results ;;
      for_batches search_term rest all_results'
  end.

(** Lines 119-138: the body of the loop over the terms.  A failure of the
    traversal surfaces once the batches before it have been consumed. *)
Definition for_term (opts : Namespace) (fields_spec : pystr)
    (raw : pystr) (all_results : list loc) : M (list loc) :=
  let search_term := strip raw in
  gen <- run_traversal (build_request opts fields_spec search_term) ;;
  all_results' <- for_batches search_term (fst gen) all_results ;;
  match snd gen with
  | Some e => raise (TraversalFailure e)
  | None => ret all_results'
  end.

(** Lines 118-138. *)
Fixpoint for_terms (opts : Namespace) (fields_spec : pystr)
    (terms : list pystr) (all_results : list loc) : M (list loc) :=
  match terms with
  | [] => ret all_results
  | raw :: rest =>
      all_results' <- for_term opts fields_spec raw all_results ;;
      for_terms opts fields_spec rest all_results'
  end.

(** Lines 114-138: returns [fields] and [all_results]. *)
Definition collect_results (opts : Namespace) : M (pystr * list loc) :=
  let terms := search_terms_of opts in
  fields_spec <- fields_of opts ;;
  all_results <- for_terms opts fields_spec terms [] ;;
  ret (fields_spec, all_results).

(** *** Lines 140-151: dispatch *)

(** Calling a handler: it receives the list of record objects, that is,
    the records as they are at that moment. *)
Definition call_handler (name : pystr) (all_results : list loc)
    (rest : list pystr) (fields_spec : option pystr) (is_verbose : bool)
  : M unit :=
  fun w =>
    (Return tt,
     with_handler_calls w
       (handler_calls w
        ++ [ {| hc_action := name;
                hc_records := map (heap w) all_results;
                hc_args := rest; hc_fields := fields_spec;
                hc_verbose := is_verbose |} ])).

Definition dispatch_action (opts : Namespace) (fields_spec : pystr)
    (all_results : list loc) : M unit :=
  if str_in (action opts) get_operators then
    if str_eqb (action opts) (py "save_to_csv") then
      call_handler (action opts) all_results (args opts) (Some fields_spec)
        (verbose opts)
    else
      call_handler (action opts) all_results (args opts) None (verbose opts)
  else
    print (py "Invalid 'action' value: " ++ action opts) ;;;
    sys_exit 1.

(** *** [main] *)

(** Lines 110-151, on the parsed options. *)
Definition main_on (opts : Namespace) : M unit :=
  check_query_selector opts ;;;
  r <- collect_results opts ;;
  dispatch_action opts (fst r) (snd r).

(** Lines 106-151. *)
Definition main (inv : invocation) : M unit :=
  match parse_args inv with
  | HelpRequested => parser_help
  | UsageError msg => parser_error msg
  | Escapes e => raise e
  | Parsed opts => main_on opts
  end.
End Program.

(** The world a process starts in: nothing printed, nothing run yet. *)
Definition initial_world (h : loc -> record) : world :=
  {| heap := h; stdout := []; stderr := []; traversals := [];
     handler_calls := [] |}.

(** ** Reference description of a run of lines 118-138 *)

(** The record [r] once tagged with [term]. *)
Definition tagged (term : pystr) (r : record) : record :=
  dict_set (py "search_term") (PyStr term) r.

(** The store after the objects [ads] have been tagged, one after the
    other. *)
Definition tag_all (term : pystr) (ads : list loc) (h : loc -> record)
  : loc -> record :=
  fold_left (fun h ad => heap_set h ad (tagged term (h ad))) ads h.

Definition tag_groups (groups : list (pystr * list loc)) (h : loc -> record)
  : loc -> record :=
  fold_left (fun h g => tag_all (fst g) (snd g) h) groups h.

Section Run.
Variable generate_ad_archives :
  nat -> FbAdsLibraryTraversal -> list (list loc) * option pystr.
Variable opts : Namespace.
Variable fields_spec : pystr.

(** The request made for a term as written in [--search-terms]. *)
Definition request_for (raw : pystr) : FbAdsLibraryTraversal :=
  build_request opts fields_spec (strip raw).

(** Per term, in term order: the stripped term and the record objects its
    traversal yields, batches in arrival order, each batch in its own
    order.  [n] is the number of traversals run before. *)
Fixpoint yielded (n : nat) (terms : list pystr) : list (pystr * list loc) :=
  match terms with
  | [] => []
  | raw :: rest =>
      (strip raw, concat (fst (generate_ad_archives n (request_for raw))))
        :: yielded (S n) rest
  end.

(** No traversal of the run ends in a failure. *)
Fixpoint traversals_succeed (n : nat) (terms : list pystr) : Prop :=
  match terms with
  | [] => True
  | raw :: rest =>
      snd (generate_ad_archives n (request_for raw)) = None
      /\ traversals_succeed (S n) rest
  end.

(** The world after the iteration for [raw]: its objects tagged, its
    request logged. *)
Definition after_term (raw : pystr) (w : world) : world :=
  with_traversals
    (with_heap w
       (tag_all (strip raw)
          (concat (fst (generate_ad_archives (length (traversals w))
                          (request_for raw))))
          (heap w)))
    (traversals w ++ [request_for raw]).

(** The world a run of the loop ends in, failure or not, when the requests
    of the first [k] terms were made and their records tagged. *)
Definition after_terms (k : nat) (terms : list pystr) (w : world) : world :=
  with_traversals
    (with_heap w
       (tag_groups
          (yielded (length (traversals w)) (firstn k terms))
          (heap w)))
    (traversals w ++ map request_for (firstn k terms)).
End Run.

(** [l1] is [l2] with some elements left out, the others in place. *)
Inductive subseq {A : Type} : list A -> list A -> Prop :=
| subseq_nil : subseq [] []
| subseq_skip x l1 l2 : subseq l1 l2 -> subseq l1 (x :: l2)
| subseq_keep x l1 l2 : subseq l1 l2 -> subseq (x :: l1) (x :: l2).

(** Keys of a dict built by successive assignments: the keys already there,
    then the new ones in the order of their first assignment. *)
Fixpoint first_seen (seen : list pystr) (l : list pystr) : list pystr :=
  match l with
  | [] => []
  | x :: l' =>
      if str_in x seen then first_seen seen l'
      else x :: first_seen (seen ++ [x]) l'
  end.

(** What a request carries of the options: the constructor's arguments, and
    each override whose value is true in a condition. *)
Definition carries_overrides (opts : Namespace) (api : FbAdsLibraryTraversal)
  : Prop :=
  api_access_token api = access_token opts
  /\ api_country api = country opts
  /\ (opt_str_truthy (search_page_ids opts) = true ->
      api_search_page_ids api = search_page_ids opts)
  /\ (opt_str_truthy (ad_active_status opts) = true ->
      api_ad_active_status api = ad_active_status opts)
  /\ (opt_str_truthy (after_date opts) = true ->
      api_after_date api = after_date opts)
  /\ (opt_int_truthy (batch_size opts) = true ->
      api_page_limit api = batch_size opts)
  /\ (opt_int_truthy (retry_limit opts) = true ->
      api_retry_limit api = retry_limit opts).

(** ** How an option occurrence bears on the parse *)

Section FlagErrors.
Variable get_country_code : pystr -> option pystr.
Variable is_valid_fields : pystr -> bool.
Variable env : argparse_env.

(** The occurrence does not end the parse: it is not the help option, not
    an argument argparse refuses, and its value, if it has a [type=],
    converts. *)
Definition flag_passes (f : cli_flag) : Prop :=
  match f with
  | FlagHelp => False
  | FlagRejected _ => False
  | FlagFields s =>
      exists v, validate_fields_param is_valid_fields s = Return v
  | FlagCountry s =>
      exists v, validate_country_param get_country_code s = Return v
  | FlagBatchSize s => py_int env s <> None
  | FlagRetryLimit s => py_int env s <> None
  | _ => True
  end.

(** The occurrence is a [--fields] or [--country] whose validator raises
    [ArgumentTypeError]; [msg] is the message of the usage error argparse
    makes of it. *)
Definition validation_message (f : cli_flag) (msg : pystr) : Prop :=
  match f with
  | FlagFields s =>
      exists m,
        validate_fields_param is_valid_fields s
        = Raise (ArgumentTypeError m)
        /\ msg = (py "argument -f/--fields: " ++ m)%list
  | FlagCountry s =>
      exists m,
        validate_country_param get_country_code s
        = Raise (ArgumentTypeError m)
        /\ msg = (py "argument -c/--country: " ++ m)%list
  | _ => False
  end.
End FlagErrors.

(** The validated values held so far; a placeholder stands for a value
    not given yet. *)
Definition fields_value (p : partial_namespace) : pyval :=
  match p_fields p with Some v => v | None => PyNone end.

Definition country_value (p : partial_namespace) : pystr :=
  match p_country p with Some c => c | None => [] end.

(** Every override a request carries is the option's value, and that value
    is true in a condition: no empty string, no 0. *)
Definition overrides_from_options (opts : Namespace)
    (api : FbAdsLibraryTraversal) : Prop :=
  (forall v, api_search_page_ids api = Some v ->
             search_page_ids opts = Some v /\ v <> [])
  /\ (forall v, api_ad_active_status api = Some v ->
                ad_active_status opts = Some v /\ v <> [])
  /\ (forall v, api_after_date api = Some v ->
                after_date opts = Some v /\ v <> [])
  /\ (forall z, api_page_limit api = Some z ->
                batch_size opts = Some z /\ z <> 0%Z)
  /\ (forall z, api_retry_limit api = Some z ->
                retry_limit opts = Some z /\ z <> 0%Z).





(** ** Lines 114-151 as one step *)

(** What [main] does once the selector check has passed: collect, then
    dispatch. *)
Definition collect_and_dispatch (get_operators : list pystr)
    (generate_ad_archives :
       nat -> FbAdsLibraryTraversal -> list (list loc) * option pystr)
    (opts : Namespace) : M unit :=
  r <- collect_results generate_ad_archives opts ;;
  dispatch_action get_operators opts (fst r) (snd r).

(** A comma or a whitespace character. *)
Definition comma_or_space (c : N) : bool := (c =? comma)%N || isspace c.

(** The first character of [s], if any, is not whitespace. *)
Definition no_leading_space (s : pystr) : Prop :=
  forall c, hd_error s = Some c -> isspace c = false.

(** The last character of [s], if any, is not whitespace. *)
Definition no_trailing_space (s : pystr) : Prop :=
  forall c, hd_error (rev s) = Some c -> isspace c = false.


(** ** A worked scenario *)

(** The registry of [fb_ads_library_api_operators]. *)
Definition sample_operators : list pystr :=
  [ py "count"; py "save"; py "save_to_csv"; py "start_time_trending" ].

(** Three record objects, [{a: 1}], [{a: 2}] and [{a: 3}]. *)
Definition sample_heap : loc -> record :=
  fun l =>
    match l with
    | 0 => [(py "a", PyInt 1)]
    | 1 => [(py "a", PyInt 2)]
    | 2 => [(py "a", PyInt 3)]
    | _ => []
    end.

(** A traversal that yields [[{a: 1}]] for "shoes", [[{a: 2}, {a: 3}]] for
    "bags" and nothing otherwise. *)
Definition sample_generate (n : nat) (api : FbAdsLibraryTraversal)
  : list (list loc) * option pystr :=
  if str_eqb (api_search_term api) (py "shoes") then ([[0]], None)
  else if str_eqb (api_search_term api) (py "bags") then ([[1; 2]], None)
  else ([], None).

(** A traversal that hands out the same record object every time. *)
Definition aliasing_generate (n : nat) (api : FbAdsLibraryTraversal)
  : list (list loc) * option pystr :=
  ([[0]], None).

Definition sample_opts : Namespace :=
  {| access_token := py "TOKEN"; fields := PyStr (py "id");
     search_terms := Some (py "shoes,bags"); country := py "US";
     search_page_ids := None; ad_active_status := None; after_date := None;
     batch_size := None; retry_limit := None; verbose := false;
     action := py "save_to_csv"; args := [py "out.csv"] |}.

(** [sample_opts] with [--retry-limit 0]. *)
Definition zero_retry_opts : Namespace :=
  {| access_token := py "TOKEN"; fields := PyStr (py "id");
     search_terms := Some (py "shoes,bags"); country := py "US";
     search_page_ids := None; ad_active_status := None; after_date := None;
     batch_size := None; retry_limit := Some 0%Z; verbose := false;
     action := py "save_to_csv"; args := [py "out.csv"] |}.

(** Every override given, with a value that counts as true. *)
Definition full_opts : Namespace :=
  {| access_token := py "TOKEN"; fields := PyStr (py "id");
     search_terms := Some (py "shoes"); country := py "US";
     search_page_ids := Some (py "123"); ad_active_status := Some (py "ALL");
     after_date := Some (py "2020-01-01"); batch_size := Some 250%Z;
     retry_limit := Some 5%Z; verbose := true;
     action := py "count"; args := [] |}.

(** [--search-terms a,,b] *)
Definition double_comma_opts : Namespace :=
  {| access_token := py "TOKEN"; fields := PyStr (py "id");
     search_terms := Some (py "a,,b"); country := py "US";
     search_page_ids := None; ad_active_status := None; after_date := None;
     batch_size := None; retry_limit := None; verbose := false;
     action := py "save_to_csv"; args := [py "out.csv"] |}.

(** A traversal that yields [[{a: 1}]] for the empty term and nothing for
    any other. *)
Definition blank_term_generate (n : nat) (api : FbAdsLibraryTraversal)
  : list (list loc) * option pystr :=
  if str_truthy (api_search_term api) then ([], None) else ([[0]], None).

(** [--search-terms a,b,c] *)
Definition failing_opts : Namespace :=
  {| access_token := py "TOKEN"; fields := PyStr (py "id");
     search_terms := Some (py "a,b,c"); country := py "US";
     search_page_ids := None; ad_active_status := None; after_date := None;
     batch_size := None; retry_limit := None; verbose := false;
     action := py "save_to_csv"; args := [py "out.csv"] |}.

(** A traversal that yields [[{a: 1}]] and then fails for "b", and yields
    [[{a: 2}]] for any other term. *)
Definition failing_generate (n : nat) (api : FbAdsLibraryTraversal)
  : list (list loc) * option pystr :=
  if str_eqb (api_search_term api) (py "b")
  then ([[0]], Some (py "rate limit"))
  else ([[1]], None).

(** [sample_opts] with an action that is not in the registry. *)
Definition bogus_action_opts : Namespace :=
  {| access_token := py "TOKEN"; fields := PyStr (py "id");
     search_terms := Some (py "shoes,bags"); country := py "US";
     search_page_ids := None; ad_active_status := None; after_date := None;
     batch_size := None; retry_limit := None; verbose := false;
     action := py "bogus"; args := [] |}.

(** [int()] on plain decimal literals, for the examples. *)
Fixpoint digits_value (acc : Z) (s : pystr) : option Z :=
  match s with
  | [] => Some acc
  | c :: s' =>
      if ((48 <=? c) && (c <=? 57))%N
      then digits_value (10 * acc + Z.of_N (c - 48)) s'
      else None
  end.

Definition sample_int (s : pystr) : option Z :=
  match s with
  | [] => None
  | c :: s' =>
      if (c =? 45)%N then
        match s' with
        | [] => None
        | _ :: _ => option_map Z.opp (digits_value 0 s')
        end
      else digits_value 0 s
  end.

Definition sample_env : argparse_env :=
  {| py_int := sample_int;
     py_repr := fun s => (py "'" ++ s ++ py "'")%list;
     prog := py "fb_ads_library_api_cli.py";
     usage_text := py "usage: fb_ads_library_api_cli.py [-h] ...";
     help_text := py "The Facebook Ads Library API CLI Utility ..." |}.

(** [-t TOKEN -f id -c US save_to_csv out.csv]: neither [--search-terms]
    nor [--search-page-ids]. *)
Definition no_selector_invocation : invocation :=
  {| inv_ambiguous := None;
     inv_flags := [FlagAccessToken (py "TOKEN"); FlagFields (py "id");
                   FlagCountry (py "US")];
     inv_action := Some (py "save_to_csv"); inv_args := [py "out.csv"] |}.

(** [-t TOKEN -f id -c ZZ -s shoes save_to_csv out.csv] *)
Definition bad_country_invocation : invocation :=
  {| inv_ambiguous := None;
     inv_flags := [FlagAccessToken (py "TOKEN"); FlagFields (py "id");
                   FlagCountry (py "ZZ"); FlagSearchTerms (py "shoes")];
     inv_action := Some (py "save_to_csv"); inv_args := [py "out.csv"] |}.

(** [-t TOKEN -c ZZ -f id,bogus -c YY save_to_csv]: three values that fail
    validation, the country [ZZ] first. *)
Definition three_failures_invocation : invocation :=
  {| inv_ambiguous := None;
     inv_flags := [FlagAccessToken (py "TOKEN"); FlagCountry (py "ZZ");
                   FlagFields (py "id,bogus"); FlagCountry (py "YY")];
     inv_action := Some (py "save_to_csv"); inv_args := [] |}.

(** [-h -c ZZ] *)
Definition help_first_invocation : invocation :=
  {| inv_ambiguous := None;
     inv_flags := [FlagHelp; FlagCountry (py "ZZ")];
     inv_action := None; inv_args := [] |}.

(** [-t TOKEN -f id -c US -s shoes bogus]: an action that is not in the
    registry. *)
Definition bogus_action_invocation : invocation :=
  {| inv_ambiguous := None;
     inv_flags := [FlagAccessToken (py "TOKEN"); FlagFields (py "id");
                   FlagCountry (py "US"); FlagSearchTerms (py "shoes")];
     inv_action := Some (py "bogus"); inv_args := [] |}.


(** * Properties *)

(** ** Strings and dicts *)

Lemma str_eqb_eq (a b : pystr) : str_eqb a b = true <-> a = b.
Proof.
  revert b; induction a as [|x a IH]; intros [|y b]; simpl;
    try (split; [discriminate | discriminate]); try tauto.
  rewrite andb_true_iff, N.eqb_eq, IH.
  split; [intros [-> ->]; reflexivity | intros H; inversion H; auto].
Qed.

Lemma str_eqb_refl (a : pystr) : str_eqb a a = true.
Proof. apply str_eqb_eq; reflexivity. Qed.

Lemma str_eqb_neq (a b : pystr) : str_eqb a b = false <-> a <> b.
Proof.
  rewrite <- str_eqb_eq. destruct (str_eqb a b); split; congruence.
Qed.

Lemma str_in_In (x : pystr) (l : list pystr) : str_in x l = true <-> In x l.
Proof.
  induction l as [|y l IH]; simpl.
  - split; [discriminate | tauto].
  - rewrite orb_true_iff, str_eqb_eq, IH. split; intros [H|H]; auto.
Qed.

Lemma str_in_not_In (x : pystr) (l : list pystr) :
  str_in x l = false <-> ~ In x l.
Proof.
  rewrite <- str_in_In. destruct (str_in x l); split; congruence.
Qed.

Lemma list_truthy_false {A} (l : list A) : list_truthy l = false <-> l = [].
Proof. destruct l; simpl; split; congruence. Qed.

Lemma list_truthy_true {A} (l : list A) : list_truthy l = true <-> l <> [].
Proof. destruct l; simpl; split; congruence. Qed.

Lemma split_not_nil (sep : N) (s : pystr) : split sep s <> [].
Proof.
  destruct s as [|c s]; simpl; [discriminate|].
  destruct (c =? sep)%N; [discriminate|].
  destruct (split sep s); discriminate.
Qed.

(** [split] returns one piece more than there are separators. *)
Lemma split_length (sep : N) (s : pystr) :
  length (split sep s) = S (count_occ N.eq_dec s sep).
Proof.
  induction s as [|c s IH]; simpl; [reflexivity|].
  destruct (N.eqb_spec c sep) as [->|Hne].
  - destruct (N.eq_dec sep sep); [|congruence]. simpl. now rewrite IH.
  - destruct (N.eq_dec c sep); [congruence|].
    pose proof (split_not_nil sep s).
    destruct (split sep s); [congruence|]. simpl in *. exact IH.
Qed.

Lemma join_mentions (sep : pystr) (l : list pystr) (t : pystr) :
  In t l -> mentions (join sep l) t.
Proof.
  induction l as [|x l IH]; [intros []|].
  intros [->|Hin].
  - destruct l as [|y l].
    + exists [], []. simpl. now rewrite app_nil_r.
    + exists [], (sep ++ join sep (y :: l)). reflexivity.
  - destruct l as [|y l]; [destruct Hin|].
    destruct (IH Hin) as (a & b & E).
    exists (x ++ sep ++ a), b.
    change (join sep (x :: y :: l)) with (x ++ sep ++ join sep (y :: l)).
    rewrite E. now rewrite <- !app_assoc.
Qed.

Lemma mentions_prefixed (p s t : pystr) : mentions s t -> mentions (p ++ s) t.
Proof.
  intros (a & b & ->). exists (p ++ a), b. now rewrite <- app_assoc.
Qed.
Example split_example :
  split comma (py "a,,b") = [py "a"; py ""; py "b"]
  /\ split comma (py "") = [py ""]
  /\ split comma (py "a,") = [py "a"; py ""].
Proof. repeat split; reflexivity. Qed.

Example strip_example :
  strip (py "  us ") = py "us" /\ strip (py " ") = py "".
Proof. split; reflexivity. Qed.

Example validate_country_example :
  validate_country_param sample_get_country_code (py "UK,us,uk")
  = Return (py "GB,US,GB").
Proof. reflexivity. Qed.

Example validate_fields_example :
  validate_fields_param sample_is_valid_fields (py " id , page_id,")
  = Return (PyStr (py "id,page_id")).
Proof. reflexivity. Qed.


(** ** The validators *)

Section ValidatorFacts.
Variable get_country_code : pystr -> option pystr.
Variable is_valid_fields : pystr -> bool.

(** An input that is not the empty string and has only blank tokens is
    refused by the country validator. *)
Lemma validate_country_blank_tokens (country_input : pystr) :
  country_input <> [] ->
  country_list_of country_input = [] ->
  validate_country_param get_country_code country_input
  = Raise (ArgumentTypeError (py "Country cannot be empty")).
Proof.
  intros Hne Hblank. unfold validate_country_param.
  destruct country_input; [congruence|]. simpl negb. cbv iota.
  now rewrite Hblank.
Qed.

(** Likewise for the fields validator. *)
Lemma validate_fields_blank_tokens (fields_input : pystr) :
  fields_input <> [] ->
  fields_list_of fields_input = [] ->
  validate_fields_param is_valid_fields fields_input
  = Raise (ArgumentTypeError (py "Fields cannot be empty")).
Proof.
  intros Hne Hblank. unfold validate_fields_param.
  destruct fields_input; [congruence|]. simpl negb. cbv iota.
  now rewrite Hblank.
Qed.

(** A kept token makes the input non-empty. *)
Lemma country_list_input_nonempty (country_input : pystr) :
  country_list_of country_input <> [] -> str_truthy country_input = true.
Proof. destruct country_input; [intros H; now elim H | reflexivity]. Qed.

Lemma fields_list_input_nonempty (fields_input : pystr) :
  fields_list_of fields_input <> [] -> str_truthy fields_input = true.
Proof. destruct fields_input; [intros H; now elim H | reflexivity]. Qed.

(** The pairs of the dict comprehension of lines 75-79 are the unresolved
    tokens, each with [None]. *)
Lemma invalid_pairs (l : list pystr) :
  filter (fun kv : pystr * option pystr => is_none (snd kv))
    (combine l (map get_country_code l))
  = map (fun x => (x, None))
      (filter (fun x => is_none (get_country_code x)) l).
Proof.
  induction l as [|x l IH]; simpl; [reflexivity|].
  destruct (get_country_code x) eqn:E; simpl; now rewrite IH.
Qed.
End ValidatorFacts.

Lemma dict_keys_set {V} (k : pystr) (v : V) (d : pydict V) :
  dict_keys (dict_set k v d)
  = if str_in k (dict_keys d) then dict_keys d else dict_keys d ++ [k].
Proof.
  unfold dict_keys.
  induction d as [|[k' v'] d IH]; simpl; [reflexivity|].
  destruct (str_eqb k k') eqn:E; simpl; [reflexivity|].
  rewrite IH. destruct (str_in k (map fst d)); reflexivity.
Qed.

Lemma dict_keys_fold {V} (pairs : list (pystr * V)) (d : pydict V) :
  dict_keys (fold_left (fun d kv => dict_set (fst kv) (snd kv) d) pairs d)
  = dict_keys d ++ first_seen (dict_keys d) (map fst pairs).
Proof.
  revert d; induction pairs as [|[k v] pairs IH]; intros d; simpl.
  - now rewrite app_nil_r.
  - rewrite IH, dict_keys_set.
    destruct (str_in k (dict_keys d)); [reflexivity|].
    now rewrite <- app_assoc.
Qed.

Lemma first_seen_subseq (seen l : list pystr) : subseq (first_seen seen l) l.
Proof.
  revert seen; induction l as [|x l IH]; intros seen; simpl.
  - constructor.
  - destruct (str_in x seen); constructor; apply IH.
Qed.

Lemma first_seen_complete (seen l : list pystr) (x : pystr) :
  In x l -> In x seen \/ In x (first_seen seen l).
Proof.
  revert seen; induction l as [|y l IH]; intros seen; simpl; [tauto|].
  intros [->|Hin].
  - destruct (str_in x seen) eqn:E; [left; now apply str_in_In|].
    right; now left.
  - destruct (str_in y seen) eqn:E; [now apply IH|].
    destruct (IH (seen ++ [y]) Hin) as [H|H].
    + apply in_app_or in H. destruct H as [H|[->|[]]]; [now left|].
      right; now left.
    + right; now right.
Qed.

Lemma first_seen_In (seen l : list pystr) (x : pystr) :
  In x (first_seen seen l) -> In x l.
Proof.
  revert seen; induction l as [|y l IH]; intros seen; simpl; [tauto|].
  destruct (str_in y seen); [intros H; right; eapply IH; eauto|].
  intros [->|H]; [now left | right; eapply IH; eauto].
Qed.

Lemma subseq_filter {A} (f : A -> bool) (l : list A) : subseq (filter f l) l.
Proof.
  induction l as [|x l IH]; simpl; [constructor|].
  destruct (f x); now constructor.
Qed.

Lemma subseq_trans {A} (l1 l2 l3 : list A) :
  subseq l1 l2 -> subseq l2 l3 -> subseq l1 l3.
Proof.
  intros H12 H23; revert l1 H12.
  induction H23 as [|x l2 l3 H IH|x l2 l3 H IH]; intros l1 H12.
  - exact H12.
  - constructor; now apply IH.
  - inversion H12; subst; constructor; now apply IH.
Qed.

(** The keys of the dict of lines 75-79: the unresolved tokens, each once,
    in the order of their first occurrence. *)
Lemma invalid_inputs_keys (gcc : pystr -> option pystr) (l : list pystr) :
  dict_keys (invalid_inputs_of gcc l)
  = first_seen [] (filter (fun x => is_none (gcc x)) l).
Proof.
  unfold invalid_inputs_of, dict_of_pairs.
  rewrite dict_keys_fold, invalid_pairs, map_map. simpl.
  now rewrite map_id.
Qed.

Lemma all_str_resolved (l : list (option pystr)) (codes : list pystr) :
  l = map Some codes -> all_str l = Some codes.
Proof.
  intros ->. induction codes as [|c codes IH]; simpl; [reflexivity|].
  now rewrite IH.
Qed.

Lemma resolved_codes {A} (f : A -> option pystr) (l : list A) :
  (forall t, In t l -> f t <> None) ->
  exists codes, map f l = map Some codes.
Proof.
  induction l as [|x l IH]; intros H.
  - exists []; reflexivity.
  - destruct IH as [codes E]; [intros t Ht; apply H; now right|].
    destruct (f x) as [c|] eqn:Ex.
    + exists (c :: codes); simpl. now rewrite Ex, E.
    + exfalso. apply (H x); [now left | exact Ex].
Qed.

(** C3 (the code departs from the claim): the fields validator refuses an
    input whose tokens are all blank, such as [" , ,"], with "Fields cannot
    be empty"; but for the empty string, whose token list is just as empty,
    line 90 returns [False] before the tokens are looked at. *)
Theorem validate_fields_empty_string_returns_false :
  forall is_valid_fields : pystr -> bool,
    fields_list_of (py "") = []
    /\ validate_fields_param is_valid_fields (py "") = Return (PyBool false)
    /\ fields_list_of (py " , ,") = []
    /\ validate_fields_param is_valid_fields (py " , ,")
       = Raise (ArgumentTypeError (py "Fields cannot be empty")).
Proof.
  intros is_valid_fields. split; [reflexivity|]. split; [reflexivity|].
  split; [reflexivity|].
  apply validate_fields_blank_tokens; [discriminate | reflexivity].
Qed.

(** C4 (the code departs from the claim): the country validator refuses an
    input whose tokens are all blank, such as [","] or [" , ,"], with
    "Country cannot be empty"; but for the empty string line 69 returns the
    empty string, a success value. *)
Theorem validate_country_empty_string_returns_empty :
  forall get_country_code : pystr -> option pystr,
    country_list_of (py "") = []
    /\ validate_country_param get_country_code (py "") = Return (py "")
    /\ country_list_of (py " , ,") = []
    /\ validate_country_param get_country_code (py " , ,")
       = Raise (ArgumentTypeError (py "Country cannot be empty")).
Proof.
  intros get_country_code. split; [reflexivity|]. split; [reflexivity|].
  split; [reflexivity|].
  apply validate_country_blank_tokens; [discriminate | reflexivity].
Qed.

(** C5, as stated, fails: in ["UK, us, uk"] every token resolves in the
    sample table once stripped, yet the validator looks up [" us"] and
    [" uk"] as written and refuses the input. *)
Lemma validate_country_does_not_strip_tokens :
  (forall t, In t (country_list_of (py "UK, us, uk")) ->
             sample_get_country_code (strip t) <> None)
  /\ map (fun t => sample_get_country_code (strip t))
       (country_list_of (py "UK, us, uk"))
     = [Some (py "GB"); Some (py "US"); Some (py "GB")]
  /\ validate_country_param sample_get_country_code (py "UK, us, uk")
     = Raise (ArgumentTypeError
                (py "Invalid/unsupported country code:  us, uk")).
Proof.
  split; [|split; reflexivity].
  intros t Ht. vm_compute in Ht.
  destruct Ht as [<-|[<-|[<-|[]]]]; vm_compute; discriminate.
Qed.

(** C5, amended: when every kept token, taken as written, resolves through
    [get_country_code], the country validator returns the codes joined by
    commas: one code per kept token, in input order, duplicates kept. *)
Theorem validate_country_resolved :
  forall (get_country_code : pystr -> option pystr) (country_input : pystr),
    country_list_of country_input <> [] ->
    (forall t, In t (country_list_of country_input) ->
               get_country_code t <> None) ->
    exists codes : list pystr,
      map get_country_code (country_list_of country_input) = map Some codes
      /\ length codes = length (country_list_of country_input)
      /\ validate_country_param get_country_code country_input
         = Return (join (py ",") codes).
Proof.
  intros gcc input Hne Hres.
  destruct (resolved_codes gcc _ Hres) as [codes Hcodes].
  exists codes. split; [exact Hcodes|]. split.
  - apply (f_equal (@length _)) in Hcodes. now rewrite !length_map in Hcodes.
  - unfold validate_country_param.
    rewrite (country_list_input_nonempty _ Hne). simpl negb. cbv iota.
    rewrite (proj2 (list_truthy_true _) Hne). simpl negb. cbv iota.
    assert (Hnone : invalid_inputs_of gcc (country_list_of input) = []).
    { unfold invalid_inputs_of. rewrite invalid_pairs.
      replace (filter (fun x => is_none (gcc x)) (country_list_of input))
        with (@nil pystr); [reflexivity|].
      symmetry. clear Hcodes Hne.
      induction (country_list_of input) as [|x l IH]; [reflexivity|].
      simpl. destruct (gcc x) eqn:E.
      - simpl. apply IH. intros t Ht; apply Hres; now right.
      - exfalso. apply (Hres x); [now left | exact E]. }
    rewrite Hnone. simpl list_truthy. cbv iota.
    unfold join_values. now rewrite (@all_str_resolved _ _ Hcodes).
Qed.

Lemma validate_country_resolved_witness :
  country_list_of (py "UK,us,uk") <> []
  /\ (forall t, In t (country_list_of (py "UK,us,uk")) ->
                sample_get_country_code t <> None)
  /\ exists codes : list pystr,
       map sample_get_country_code (country_list_of (py "UK,us,uk"))
       = map Some codes
       /\ length codes = length (country_list_of (py "UK,us,uk"))
       /\ validate_country_param sample_get_country_code (py "UK,us,uk")
          = Return (join (py ",") codes).
Proof.
  assert (H1 : country_list_of (py "UK,us,uk") <> []) by discriminate.
  assert (H2 : forall t, In t (country_list_of (py "UK,us,uk")) ->
                         sample_get_country_code t <> None).
  { intros t Ht. vm_compute in Ht.
    destruct Ht as [<-|[<-|[<-|[]]]]; vm_compute; discriminate. }
  split; [exact H1|]. split; [exact H2|].
  exact (@validate_country_resolved sample_get_country_code
           (py "UK,us,uk") H1 H2).
Defined.

(** The example of the specification: both unknown tokens are named. *)
Example validate_country_two_unknown :
  validate_country_param sample_get_country_code (py "US,ZZ,YY")
  = Raise (ArgumentTypeError (py "Invalid/unsupported country code: ZZ,YY")).
Proof. reflexivity. Qed.

(** A token that is unknown twice is named once by the country validator
    and twice by the fields validator. *)
Example repeated_unknown_token :
  validate_country_param sample_get_country_code (py "ZZ,US,ZZ")
  = Raise (ArgumentTypeError (py "Invalid/unsupported country code: ZZ"))
  /\ validate_fields_param sample_is_valid_fields (py "zz,id,zz")
     = Raise (ArgumentTypeError (py "Unsupported fields: zz,zz")).
Proof. split; reflexivity. Qed.

(** ** Argument parsing and exit statuses *)

Section ParseFacts.
Variable gcc : pystr -> option pystr.
Variable valid : pystr -> bool.
Variable env : argparse_env.

Lemma parse_flag_passes (p : partial_namespace) (f : cli_flag) :
  flag_passes gcc valid env f ->
  exists p', parse_flag gcc valid env p f = inr p'.
Proof.
  destruct f; simpl; try tauto; eauto.
  - intros [v ->]. simpl. eauto.
  - intros [v ->]. simpl. eauto.
  - intros H. unfold convert_int. destruct (py_int env s); [eauto|congruence].
  - intros H. unfold convert_int. destruct (py_int env s); [eauto|congruence].
Qed.

Lemma parse_flag_validation (p : partial_namespace) (f : cli_flag)
    (msg : pystr) :
  validation_message gcc valid f msg ->
  parse_flag gcc valid env p f = inl (StopUsage msg).
Proof.
  destruct f; simpl; try tauto; intros (m & -> & ->); reflexivity.
Qed.

(** The parse ends at the first flag that does not pass. *)
Lemma parse_flags_first_failure (pre post : list cli_flag) (f : cli_flag)
    (msg : pystr) (p : partial_namespace) :
  Forall (flag_passes gcc valid env) pre ->
  validation_message gcc valid f msg ->
  parse_flags gcc valid env p (pre ++ f :: post) = inl (StopUsage msg).
Proof.
  intros Hpre Hf. revert p.
  induction Hpre as [|g pre Hg Hpre IH]; intros p; simpl.
  - now rewrite (@parse_flag_validation p f msg Hf).
  - destruct (@parse_flag_passes p g Hg) as [p' ->]. apply IH.
Qed.

Lemma parser_error_run (msg : pystr) (w : world) :
  @parser_error env unit msg w
  = (Raise (SystemExit 2),
     with_stderr w
       (stderr w ++ [usage_text env; prog env ++ py ": error: " ++ msg])).
Proof.
  unfold parser_error, bind, eprint, sys_exit, raise. simpl.
  unfold with_stderr. simpl. now rewrite <- app_assoc.
Qed.
End ParseFacts.

(** C2, as stated, fails: with [--country ZZ], a code the table does not
    know, the process ends with status 2, not 1. *)
Lemma bad_country_exits_with_status_2 :
  validate_country_param sample_get_country_code (py "ZZ")
  = Raise (ArgumentTypeError (py "Invalid/unsupported country code: ZZ"))
  /\ fst (main sample_get_country_code sample_is_valid_fields sample_env
            sample_operators sample_generate bad_country_invocation
            (initial_world sample_heap))
     = Raise (SystemExit 2)
  /\ exit_status
       (fst (main sample_get_country_code sample_is_valid_fields sample_env
               sample_operators sample_generate bad_country_invocation
               (initial_world sample_heap)))
     <> 1%Z
  /\ stderr
       (snd (main sample_get_country_code sample_is_valid_fields sample_env
               sample_operators sample_generate bad_country_invocation
               (initial_world sample_heap)))
     = [py "usage: fb_ads_library_api_cli.py [-h] ...";
        py "fb_ads_library_api_cli.py: error: "
        ++ py "argument -c/--country: Invalid/unsupported country code: ZZ"].
Proof. repeat split. vm_compute. discriminate. Qed.

(** C2, amended: when the first argument that ends the parse is a
    [--fields] or [--country] occurrence whose validator raises -- no
    ambiguous abbreviation on the command line, and before that occurrence
    no [-h], no refused argument and no value that fails its conversion --
    the process writes the usage text and
    "<prog>: error: argument -c/--country: <the validator's message>"
    (or [-f/--fields]) to standard error and exits with status 2, whatever
    follows the occurrence.  Nothing is printed to standard output, no
    traversal is run, no record is touched and no handler is called. *)
Theorem validation_error_exits_with_status_2 :
  forall (get_country_code : pystr -> option pystr)
         (is_valid_fields : pystr -> bool) (env : argparse_env)
         (get_operators : list pystr)
         (generate_ad_archives :
            nat -> FbAdsLibraryTraversal -> list (list loc) * option pystr)
         (inv : invocation) (w : world)
         (pre post : list cli_flag) (f : cli_flag) (msg : pystr),
    inv_ambiguous inv = None ->
    inv_flags inv = pre ++ f :: post ->
    Forall (flag_passes get_country_code is_valid_fields env) pre ->
    validation_message get_country_code is_valid_fields f msg ->
    fst (main get_country_code is_valid_fields env get_operators
           generate_ad_archives inv w)
    = Raise (SystemExit 2)
    /\ exit_status
         (fst (main get_country_code is_valid_fields env get_operators
                 generate_ad_archives inv w))
       = 2%Z
    /\ stderr (snd (main get_country_code is_valid_fields env get_operators
                      generate_ad_archives inv w))
       = stderr w ++ [usage_text env; prog env ++ py ": error: " ++ msg]
    /\ stdout (snd (main get_country_code is_valid_fields env get_operators
                      generate_ad_archives inv w))
       = stdout w
    /\ traversals (snd (main get_country_code is_valid_fields env
                          get_operators generate_ad_archives inv w))
       = traversals w
    /\ handler_calls (snd (main get_country_code is_valid_fields env
                             get_operators generate_ad_archives inv w))
       = handler_calls w
    /\ heap (snd (main get_country_code is_valid_fields env get_operators
                    generate_ad_archives inv w))
       = heap w.
Proof.
  intros gcc valid env ops gen inv w pre post f msg Hamb Hflags Hpre Hf.
  assert (E : main gcc valid env ops gen inv w
              = (Raise (SystemExit 2),
                 with_stderr w
                   (stderr w
                    ++ [usage_text env; prog env ++ py ": error: " ++ msg]))).
  { unfold main, parse_args. rewrite Hamb, Hflags.
    rewrite (@parse_flags_first_failure gcc valid env pre post f msg
               empty_namespace Hpre Hf).
    apply parser_error_run. }
  rewrite E. repeat split.
Qed.

Lemma validation_error_exits_with_status_2_witness :
  inv_ambiguous three_failures_invocation = None
  /\ inv_flags three_failures_invocation
     = [FlagAccessToken (py "TOKEN")]
       ++ FlagCountry (py "ZZ")
          :: [FlagFields (py "id,bogus"); FlagCountry (py "YY")]
  /\ Forall (flag_passes sample_get_country_code sample_is_valid_fields
               sample_env)
       [FlagAccessToken (py "TOKEN")]
  /\ validation_message sample_get_country_code sample_is_valid_fields
       (FlagCountry (py "ZZ"))
       (py "argument -c/--country: Invalid/unsupported country code: ZZ")
  /\ exit_status
       (fst (main sample_get_country_code sample_is_valid_fields sample_env
               sample_operators sample_generate three_failures_invocation
               (initial_world sample_heap)))
     = 2%Z
  /\ stderr
       (snd (main sample_get_country_code sample_is_valid_fields sample_env
               sample_operators sample_generate three_failures_invocation
               (initial_world sample_heap)))
     = [py "usage: fb_ads_library_api_cli.py [-h] ...";
        py "fb_ads_library_api_cli.py: error: "
        ++ py "argument -c/--country: Invalid/unsupported country code: ZZ"].
Proof.
  assert (H1 : inv_ambiguous three_failures_invocation = None)
    by reflexivity.
  assert (H2 : inv_flags three_failures_invocation
               = [FlagAccessToken (py "TOKEN")]
                 ++ FlagCountry (py "ZZ")
                    :: [FlagFields (py "id,bogus"); FlagCountry (py "YY")])
    by reflexivity.
  assert (H3 : Forall (flag_passes sample_get_country_code
                         sample_is_valid_fields sample_env)
                 [FlagAccessToken (py "TOKEN")]).
  { constructor; [exact I | constructor]. }
  assert (H4 : validation_message sample_get_country_code
                 sample_is_valid_fields (FlagCountry (py "ZZ"))
                 (py "argument -c/--country: "
                  ++ py "Invalid/unsupported country code: ZZ")).
  { exists (py "Invalid/unsupported country code: ZZ").
    split; reflexivity. }
  split; [exact H1|]. split; [exact H2|]. split; [exact H3|].
  split; [exact H4|].
  destruct (@validation_error_exits_with_status_2 sample_get_country_code
              sample_is_valid_fields sample_env sample_operators
              sample_generate three_failures_invocation
              (initial_world sample_heap) _ _ _ _ H1 H2 H3 H4)
    as (_ & Hstatus & Herr & _).
  split; [exact Hstatus | exact Herr].
Defined.

(** [-h] before the failing value: the help text is printed and the
    process exits with status 0. *)
Example help_before_bad_country :
  main sample_get_country_code sample_is_valid_fields sample_env
    sample_operators sample_generate help_first_invocation
    (initial_world sample_heap)
  = (Raise (SystemExit 0),
     with_stdout (initial_world sample_heap) [help_text sample_env]).
Proof. reflexivity. Qed.

(** ** The query-selector check *)

(** The namespace has no attribute [search_term]: the option is declared as
    [--search-terms], so line 110 raises for every namespace. *)
Lemma check_query_selector_raises (opts : Namespace) (w : world) :
  check_query_selector opts w = (Raise (AttributeError (py "search_term")), w).
Proof. reflexivity. Qed.

Lemma main_on_raises (get_operators : list pystr)
    (generate_ad_archives :
       nat -> FbAdsLibraryTraversal -> list (list loc) * option pystr)
    (opts : Namespace) (w : world) :
  main_on get_operators generate_ad_archives opts w
  = (Raise (AttributeError (py "search_term")), w).
Proof. reflexivity. Qed.

(** C1 (the code departs from the claim): for
    [-t TOKEN -f id -c US save_to_csv out.csv], where neither
    [--search-terms] nor [--search-page-ids] is given, the arguments parse,
    and line 110 then raises [AttributeError] on [opts.search_term].  No
    traversal is run and the interpreter ends the process with status 1, but
    the message of line 111 is never printed: nothing reaches standard
    output. *)
Theorem main_missing_selector_attribute_error :
  forall (env : argparse_env) (get_operators : list pystr)
         (generate_ad_archives :
            nat -> FbAdsLibraryTraversal -> list (list loc) * option pystr)
         (h : loc -> record),
    let out := main sample_get_country_code sample_is_valid_fields env
                 get_operators generate_ad_archives no_selector_invocation
                 (initial_world h) in
    fst out = Raise (AttributeError (py "search_term"))
    /\ exit_status (fst out) = 1%Z
    /\ stdout (snd out) = []
    /\ stderr (snd out) = []
    /\ traversals (snd out) = []
    /\ handler_calls (snd out) = [].
Proof.
  intros env ops gen h.
  assert (E : main sample_get_country_code sample_is_valid_fields env ops gen
                no_selector_invocation (initial_world h)
              = (Raise (AttributeError (py "search_term")), initial_world h)).
  { unfold main.
    change (parse_args sample_get_country_code sample_is_valid_fields env
              no_selector_invocation)
      with (Parsed
              {| access_token := py "TOKEN"; fields := PyStr (py "id");
                 search_terms := None; country := py "US";
                 search_page_ids := None; ad_active_status := None;
                 after_date := None; batch_size := None;
                 retry_limit := None; verbose := false;
                 action := py "save_to_csv"; args := [py "out.csv"] |}).
    apply main_on_raises. }
  cbv zeta. rewrite E. repeat split.
Qed.

(** ** Dispatch *)

(** The dispatch step on an action name that is not a key of the registry:
    it prints "Invalid 'action' value: <name>" and exits with status 1; it
    calls no handler, runs no traversal and leaves the records as they
    are. *)
Lemma dispatch_unknown_action (get_operators : list pystr)
    (opts : Namespace) (fields_spec : pystr) (all_results : list loc)
    (w : world) :
  ~ In (action opts) get_operators ->
  fst (dispatch_action get_operators opts fields_spec all_results w)
  = Raise (SystemExit 1)
  /\ stdout (snd (dispatch_action get_operators opts fields_spec
                    all_results w))
     = stdout w ++ [py "Invalid 'action' value: " ++ action opts]
  /\ handler_calls (snd (dispatch_action get_operators opts fields_spec
                           all_results w))
     = handler_calls w
  /\ traversals (snd (dispatch_action get_operators opts fields_spec
                        all_results w))
     = traversals w
  /\ heap (snd (dispatch_action get_operators opts fields_spec
                  all_results w))
     = heap w
  /\ stderr (snd (dispatch_action get_operators opts fields_spec
                    all_results w))
     = stderr w.
Proof.
  intros Hnot. unfold dispatch_action.
  rewrite (proj2 (str_in_not_In _ _) Hnot). repeat split.
Qed.

(** A known action reaches its handler; [save_to_csv] also gets the field
    specification. *)
Example dispatch_save_to_csv :
  handler_calls
    (snd (dispatch_action sample_operators sample_opts (py "search_term,id")
            [0] (initial_world sample_heap)))
  = [ {| hc_action := py "save_to_csv";
         hc_records := [[(py "a", PyInt 1)]];
         hc_args := [py "out.csv"];
         hc_fields := Some (py "search_term,id");
         hc_verbose := false |} ].
Proof. reflexivity. Qed.

(** ** The loop over the search terms *)

Lemma with_heap_same (w : world) : with_heap w (heap w) = w.
Proof. now destruct w. Qed.

Lemma dict_get_set_same {V} (k : pystr) (v : V) (d : pydict V) :
  dict_get k (dict_set k v d) = Some v.
Proof.
  induction d as [|[k' v'] d IH]; simpl.
  - now rewrite str_eqb_refl.
  - destruct (str_eqb k k') eqn:E; simpl; rewrite E; [reflexivity | exact IH].
Qed.

Lemma tag_all_app (term : pystr) (a b : list loc) (h : loc -> record) :
  tag_all term (a ++ b) h = tag_all term b (tag_all term a h).
Proof. apply fold_left_app. Qed.

Lemma heap_set_same (h : loc -> record) (l : loc) (r : record) :
  heap_set h l r l = r.
Proof. unfold heap_set. now rewrite Nat.eqb_refl. Qed.

Lemma heap_set_other (h : loc -> record) (l l' : loc) (r : record) :
  l' <> l -> heap_set h l r l' = h l'.
Proof.
  intros H. unfold heap_set. now rewrite (proj2 (Nat.eqb_neq l' l) H).
Qed.

(** Tagging leaves the other objects alone. *)
Lemma tag_all_other (term : pystr) (ads : list loc) (h : loc -> record)
    (l : loc) :
  ~ In l ads -> tag_all term ads h l = h l.
Proof.
  revert h; induction ads as [|a ads IH]; intros h Hnot; [reflexivity|].
  simpl. rewrite IH by (intros H; apply Hnot; now right).
  apply heap_set_other. intros ->. apply Hnot. now left.
Qed.

(** An object tagged once is the original record with the tag set. *)
Lemma tag_all_once (term : pystr) (ads : list loc) (h : loc -> record)
    (l : loc) :
  NoDup ads -> In l ads -> tag_all term ads h l = tagged term (h l).
Proof.
  revert h; induction ads as [|a ads IH]; intros h Hnd Hin; [destruct Hin|].
  inversion Hnd as [|? ? Hnotin Hnd']; subst. simpl.
  destruct Hin as [->|Hin].
  - rewrite tag_all_other by exact Hnotin. apply heap_set_same.
  - rewrite IH by assumption.
    rewrite heap_set_other; [reflexivity|]. intros ->. contradiction.
Qed.

(** Whatever the aliasing, an object that was tagged carries the tag when
    the loop over the batches ends. *)
Lemma tag_all_get (term : pystr) (ads : list loc) (h : loc -> record)
    (l : loc) :
  In l ads \/ dict_get (py "search_term") (h l) = Some (PyStr term) ->
  dict_get (py "search_term") (tag_all term ads h l) = Some (PyStr term).
Proof.
  revert h; induction ads as [|a ads IH]; intros h H.
  - destruct H as [[]|H]; exact H.
  - simpl. apply IH.
    destruct (Nat.eq_dec l a) as [->|Hne].
    + right. rewrite heap_set_same. apply dict_get_set_same.
    + destruct H as [[H|H]|H]; [congruence | now left |].
      right. now rewrite heap_set_other.
Qed.

Lemma tag_groups_other (groups : list (pystr * list loc))
    (h : loc -> record) (l : loc) :
  ~ In l (concat (map snd groups)) -> tag_groups groups h l = h l.
Proof.
  revert h; induction groups as [|g groups IH]; intros h Hnot;
    [reflexivity|].
  simpl in *. unfold tag_groups in IH. rewrite IH.
  - apply tag_all_other. intros H. apply Hnot, in_or_app. now left.
  - intros H. apply Hnot, in_or_app. now right.
Qed.

Lemma NoDup_app_inv {A} (l1 l2 : list A) :
  NoDup (l1 ++ l2) ->
  NoDup l1 /\ NoDup l2 /\ (forall a, In a l1 -> ~ In a l2).
Proof.
  induction l1 as [|x l1 IH]; simpl; intros H.
  - split; [constructor|]. split; [exact H | intros a []].
  - inversion H as [|? ? Hx Hnd]; subst.
    destruct (IH Hnd) as (H1 & H2 & H3).
    split; [constructor; [|exact H1]|].
    + intros Hin. apply Hx, in_or_app. now left.
    + split; [exact H2|]. intros a [->|Ha]; [|now apply H3].
      intros Hin. apply Hx, in_or_app. now right.
Qed.

(** When no object is yielded twice, the aggregate read at the end of the
    run is the sequence of the original records, each with the tag of the
    term it was yielded for. *)
Lemma tag_groups_aggregate (groups : list (pystr * list loc))
    (h : loc -> record) :
  NoDup (concat (map snd groups)) ->
  map (tag_groups groups h) (concat (map snd groups))
  = flat_map (fun g => map (fun l => tagged (fst g) (h l)) (snd g)) groups.
Proof.
  revert h; induction groups as [|[t ads] groups IH]; intros h Hnd;
    [reflexivity|].
  simpl in *. apply NoDup_app_inv in Hnd.
  rewrite map_app. f_equal.
  - apply map_ext_in. intros l Hl.
    change (tag_groups groups (tag_all t ads h) l = tagged t (h l)).
    rewrite tag_groups_other.
    + apply tag_all_once; tauto.
    + intros H. destruct Hnd as (_ & _ & Hdisj). exact (Hdisj l Hl H).
  - change (map (tag_groups groups (tag_all t ads h))
              (concat (map snd groups))
            = flat_map
                (fun g => map (fun l => tagged (fst g) (h l)) (snd g))
                groups).
    rewrite IH by tauto.
    rewrite !flat_map_concat_map. f_equal.
    apply map_ext_in. intros g Hg. apply map_ext_in. intros l Hl.
    rewrite tag_all_other; [reflexivity|].
    intros H. destruct Hnd as (_ & _ & Hdisj). apply (Hdisj l H).
    apply in_concat. exists (snd g). split; [now apply in_map | exact Hl].
Qed.

Section RunFacts.
Variable gen : nat -> FbAdsLibraryTraversal -> list (list loc) * option pystr.
Variable opts : Namespace.
Variable fs : pystr.

(** Lines 136-138 append the batch, in its order, and tag each object. *)
Lemma for_ads_run (term : pystr) (ads acc : list loc) (w : world) :
  for_ads term ads acc w
  = (Return (acc ++ ads), with_heap w (tag_all term ads (heap w))).
Proof.
  revert acc w; induction ads as [|ad ads IH]; intros acc w.
  - simpl. unfold ret. now rewrite app_nil_r, with_heap_same.
  - simpl. unfold bind, tag. rewrite IH. now rewrite <- app_assoc.
Qed.

(** Lines 135-138 do so batch after batch. *)
Lemma for_batches_run (term : pystr) (batches : list (list loc))
    (acc : list loc) (w : world) :
  for_batches term batches acc w
  = (Return (acc ++ concat batches),
     with_heap w (tag_all term (concat batches) (heap w))).
Proof.
  revert acc w; induction batches as [|b batches IH]; intros acc w.
  - simpl. unfold ret. now rewrite app_nil_r, with_heap_same.
  - simpl. unfold bind. rewrite for_ads_run, IH.
    now rewrite tag_all_app, <- app_assoc.
Qed.

(** One iteration: the request is logged, the batches consumed; then the
    failure, if there is one, is raised. *)
Lemma for_term_run (raw : pystr) (acc : list loc) (w : world) :
  for_term gen opts fs raw acc w
  = match snd (gen (length (traversals w)) (request_for opts fs raw)) with
    | Some e => (Raise (TraversalFailure e), after_term gen opts fs raw w)
    | None =>
        (Return (acc ++ concat (fst (gen (length (traversals w))
                                       (request_for opts fs raw)))),
         after_term gen opts fs raw w)
    end.
Proof.
  unfold for_term, bind, run_traversal, after_term, request_for.
  rewrite for_batches_run.
  destruct (snd (gen (length (traversals w))
                   (build_request opts fs (strip raw)))); reflexivity.
Qed.

(** A whole run in which no traversal fails. *)
Lemma for_terms_run (terms : list pystr) (acc : list loc) (w : world) :
  traversals_succeed gen opts fs (length (traversals w)) terms ->
  for_terms gen opts fs terms acc w
  = (Return
       (acc ++ concat (map snd (yielded gen opts fs
                                  (length (traversals w)) terms))),
     with_traversals
       (with_heap w
          (tag_groups (yielded gen opts fs (length (traversals w)) terms)
             (heap w)))
       (traversals w ++ map (request_for opts fs) terms)).
Proof.
  revert acc w; induction terms as [|raw rest IH]; intros acc w Hok.
  - simpl. unfold ret. rewrite !app_nil_r. now destruct w.
  - destruct Hok as [Hnone Hrest].
    simpl. unfold bind. rewrite for_term_run, Hnone.
    assert (Hlen : length (traversals (after_term gen opts fs raw w))
                   = S (length (traversals w))).
    { unfold after_term. simpl. rewrite length_app. simpl. lia. }
    rewrite IH by (rewrite Hlen; exact Hrest).
    rewrite Hlen. unfold after_term. simpl.
    now rewrite <- !app_assoc.
Qed.

(** Whether or not a traversal fails, the requests logged are the ones of
    the first terms, in term order. *)
Lemma for_terms_log (terms : list pystr) (acc : list loc) (w : world) :
  exists k,
    traversals (snd (for_terms gen opts fs terms acc w))
    = traversals w ++ map (request_for opts fs) (firstn k terms).
Proof.
  revert acc w; induction terms as [|raw rest IH]; intros acc w.
  - exists 0. simpl. now rewrite app_nil_r.
  - simpl. unfold bind. rewrite for_term_run.
    destruct (snd (gen (length (traversals w)) (request_for opts fs raw))).
    + exists 1. simpl. reflexivity.
    + match goal with
      | |- context [for_terms gen opts fs rest ?a ?w1] =>
          destruct (IH a w1) as [k Hk]
      end.
      exists (S k). rewrite Hk. simpl. now rewrite <- app_assoc.
Qed.

Lemma traversals_succeed_app (n : nat) (pre post : list pystr) :
  traversals_succeed gen opts fs n (pre ++ post) <->
  traversals_succeed gen opts fs n pre
  /\ traversals_succeed gen opts fs (n + length pre) post.
Proof.
  revert n; induction pre as [|raw pre IH]; intros n; simpl.
  - rewrite Nat.add_0_r. tauto.
  - rewrite IH.
    replace (S n + length pre) with (n + S (length pre)) by lia. tauto.
Qed.
End RunFacts.

Lemma tag_groups_once (groups : list (pystr * list loc)) (h : loc -> record)
    (g : pystr * list loc) (l : loc) :
  NoDup (concat (map snd groups)) ->
  In g groups -> In l (snd g) ->
  tag_groups groups h l = tagged (fst g) (h l).
Proof.
  revert h; induction groups as [|[t ads] groups IH]; intros h Hnd Hg Hl;
    [destruct Hg|].
  simpl in Hnd. apply NoDup_app_inv in Hnd. destruct Hnd as (Ha & Hr & Hdisj).
  change (tag_groups groups (tag_all t ads h) l = tagged (fst g) (h l)).
  destruct Hg as [<-|Hg]; simpl.
  - rewrite tag_groups_other by (apply Hdisj; exact Hl).
    now apply tag_all_once.
  - rewrite IH by assumption.
    rewrite tag_all_other; [reflexivity|].
    intros H. apply (Hdisj l H).
    apply in_concat. exists (snd g). split; [now apply in_map | exact Hl].
Qed.

Lemma yielded_terms
    (gen : nat -> FbAdsLibraryTraversal -> list (list loc) * option pystr)
    (opts : Namespace) (fs : pystr) (n : nat) (terms : list pystr) :
  map fst (yielded gen opts fs n terms) = map strip terms.
Proof.
  revert n; induction terms as [|raw rest IH]; intros n; simpl;
    [reflexivity | now rewrite IH].
Qed.

Lemma for_terms_app
    (gen : nat -> FbAdsLibraryTraversal -> list (list loc) * option pystr)
    (opts : Namespace) (fs : pystr) (pre post : list pystr)
    (acc : list loc) (w : world) :
  for_terms gen opts fs (pre ++ post) acc w
  = match for_terms gen opts fs pre acc w with
    | (Return acc1, w1) => for_terms gen opts fs post acc1 w1
    | (Raise e, w1) => (Raise e, w1)
    end.
Proof.
  revert acc w; induction pre as [|raw pre IH]; intros acc w; simpl;
    [reflexivity|].
  unfold bind. destruct (for_term gen opts fs raw acc w) as [[a|e] w1];
    [apply IH | reflexivity].
Qed.

(** Lines 114-138 when the field specification is a string and no traversal
    fails. *)
Lemma collect_results_run
    (gen : nat -> FbAdsLibraryTraversal -> list (list loc) * option pystr)
    (opts : Namespace) (f : pystr) (w : world) :
  fields opts = PyStr f ->
  traversals_succeed gen opts (py "search_term," ++ f)
    (length (traversals w)) (search_terms_of opts) ->
  collect_results gen opts w
  = (Return
       (py "search_term," ++ f,
        concat (map snd (yielded gen opts (py "search_term," ++ f)
                           (length (traversals w)) (search_terms_of opts)))),
     with_traversals
       (with_heap w
          (tag_groups
             (yielded gen opts (py "search_term," ++ f)
                (length (traversals w)) (search_terms_of opts))
             (heap w)))
       (traversals w
        ++ map (request_for opts (py "search_term," ++ f))
             (search_terms_of opts))).
Proof.
  intros Hf Hok. unfold collect_results, fields_of, bind. rewrite Hf.
  unfold ret at 1. now rewrite (for_terms_run _ _ _ _ [] _ Hok).
Qed.

(** C7, as stated, fails: a traversal that yields the same record object
    for "shoes" and for "bags" leaves two entries in the aggregate that are
    one object, and both read [search_term = "bags"]; the entry that came
    from "shoes" does not carry its own term. *)
Lemma aliased_record_carries_last_term :
  fst (collect_results aliasing_generate sample_opts
         (initial_world sample_heap))
  = Return (py "search_term,id", [0; 0])
  /\ map (heap (snd (collect_results aliasing_generate sample_opts
                       (initial_world sample_heap))))
       [0; 0]
     = [ [(py "a", PyInt 1); (py "search_term", PyStr (py "bags"))];
         [(py "a", PyInt 1); (py "search_term", PyStr (py "bags"))] ]
  /\ dict_get (py "search_term")
       (heap (snd (collect_results aliasing_generate sample_opts
                     (initial_world sample_heap))) 0)
     <> Some (PyStr (py "shoes")).
Proof.
  split; [reflexivity|]. split; [reflexivity|]. vm_compute. discriminate.
Qed.

(** C7, amended: when the field specification is a string, no traversal
    fails and no record object is yielded twice in the run, lines 114-138
    return the record objects in (term, batch, within-batch) order, and at
    the end each of them is the record the traversal yielded with
    [search_term] set to the stripped term it was yielded for. *)
Theorem collect_results_tags_in_order :
  forall (generate_ad_archives :
            nat -> FbAdsLibraryTraversal -> list (list loc) * option pystr)
         (opts : Namespace) (f : pystr) (w : world),
    fields opts = PyStr f ->
    traversals_succeed generate_ad_archives opts (py "search_term," ++ f)
      (length (traversals w)) (search_terms_of opts) ->
    NoDup (concat (map snd (yielded generate_ad_archives opts
                              (py "search_term," ++ f)
                              (length (traversals w))
                              (search_terms_of opts)))) ->
    let groups := yielded generate_ad_archives opts (py "search_term," ++ f)
                    (length (traversals w)) (search_terms_of opts) in
    exists w' : world,
      collect_results generate_ad_archives opts w
      = (Return (py "search_term," ++ f, concat (map snd groups)), w')
      /\ map fst groups = map strip (search_terms_of opts)
      /\ map (heap w') (concat (map snd groups))
         = flat_map
             (fun g => map (fun l => tagged (fst g) (heap w l)) (snd g))
             groups
      /\ (forall g l, In g groups -> In l (snd g) ->
            heap w' l = tagged (fst g) (heap w l)
            /\ dict_get (py "search_term") (heap w' l)
               = Some (PyStr (fst g))).
Proof.
  intros gen opts f w Hf Hok Hnd groups.
  exists (with_traversals (with_heap w (tag_groups groups (heap w)))
            (traversals w
             ++ map (request_for opts (py "search_term," ++ f))
                  (search_terms_of opts))).
  split; [apply (collect_results_run _ _ _ Hf Hok)|].
  split; [apply yielded_terms|].
  change (heap (with_traversals (with_heap w (tag_groups groups (heap w)))
                  (traversals w
                   ++ map (request_for opts (py "search_term," ++ f))
                        (search_terms_of opts))))
    with (tag_groups groups (heap w)).
  split.
  - now apply tag_groups_aggregate.
  - intros g l Hg Hl.
    rewrite (@tag_groups_once groups (heap w) g l Hnd Hg Hl).
    split; [reflexivity | apply dict_get_set_same].
Qed.

Lemma collect_results_tags_in_order_witness :
  fields sample_opts = PyStr (py "id")
  /\ traversals_succeed sample_generate sample_opts (py "search_term,id")
       0 (search_terms_of sample_opts)
  /\ NoDup (concat (map snd (yielded sample_generate sample_opts
                               (py "search_term,id") 0
                               (search_terms_of sample_opts))))
  /\ exists w' : world,
       collect_results sample_generate sample_opts (initial_world sample_heap)
       = (Return (py "search_term,id", [0; 1; 2]), w')
       /\ map (heap w') [0; 1; 2]
          = [ [(py "a", PyInt 1); (py "search_term", PyStr (py "shoes"))];
              [(py "a", PyInt 2); (py "search_term", PyStr (py "bags"))];
              [(py "a", PyInt 3); (py "search_term", PyStr (py "bags"))] ].
Proof.
  assert (H1 : fields sample_opts = PyStr (py "id")) by reflexivity.
  assert (H2 : traversals_succeed sample_generate sample_opts
                 (py "search_term," ++ py "id")
                 (length (traversals (initial_world sample_heap)))
                 (search_terms_of sample_opts)).
  { simpl. repeat split. }
  assert (H3 : NoDup (concat (map snd (yielded sample_generate sample_opts
                                         (py "search_term," ++ py "id")
                                         (length (traversals
                                                    (initial_world
                                                       sample_heap)))
                                         (search_terms_of sample_opts))))).
  { change (NoDup [0; 1; 2]).
    constructor; [simpl; intros [H|[H|[]]]; discriminate|].
    constructor; [simpl; intros [H|[]]; discriminate|].
    constructor; [simpl; intros []|]. constructor. }
  split; [exact H1|]. split; [exact H2|]. split; [exact H3|].
  destruct (@collect_results_tags_in_order sample_generate sample_opts
              (py "id") (initial_world sample_heap) H1 H2 H3)
    as (w' & Hrun & _ & Hagg & _).
  exists w'. split; [exact Hrun | exact Hagg].
Defined.

Lemma traversals_succeed_decide
    (gen : nat -> FbAdsLibraryTraversal -> list (list loc) * option pystr)
    (opts : Namespace) (fs : pystr) (n : nat) (terms : list pystr) :
  traversals_succeed gen opts fs n terms
  \/ ~ traversals_succeed gen opts fs n terms.
Proof.
  revert n; induction terms as [|raw rest IH]; intros n; simpl; [now left|].
  destruct (snd (gen n (request_for opts fs raw))) as [e|].
  - right. intros [H _]. discriminate.
  - destruct (IH (S n)) as [H|H]; [left; now split | right; tauto].
Qed.

(** ** The traversal requests *)

Lemma build_request_carries (opts : Namespace) (fs term : pystr) :
  carries_overrides opts (build_request opts fs term).
Proof.
  unfold carries_overrides, build_request; simpl.
  repeat split; intros H; now rewrite H.
Qed.

(** C8, as stated, fails: with [--retry-limit 0] the condition of line 129
    is false, so the requests keep the retry limit the constructor gave
    them. *)
Lemma retry_limit_zero_not_forwarded :
  retry_limit zero_retry_opts = Some 0%Z
  /\ map api_retry_limit
       (traversals (snd (collect_results sample_generate zero_retry_opts
                           (initial_world sample_heap))))
     = [None; None].
Proof. split; reflexivity. Qed.

(** C8, amended: the requests made by lines 114-138 are, in term order, the
    requests built for the stripped terms (all of them when the field
    specification is a string and no traversal fails), and each carries the
    access token, the field specification, the country codes and every
    override -- page ids, active status, after-date, batch size, retry
    limit -- whose value is true in a condition: a non-empty string, an
    integer other than 0. *)
Theorem traversal_requests_carry_overrides :
  forall (generate_ad_archives :
            nat -> FbAdsLibraryTraversal -> list (list loc) * option pystr)
         (opts : Namespace) (w : world),
    exists (fs : pystr) (k : nat),
      traversals (snd (collect_results generate_ad_archives opts w))
      = traversals w
        ++ map (request_for opts fs) (firstn k (search_terms_of opts))
      /\ (forall f, fields opts = PyStr f ->
            fs = (py "search_term," ++ f)%list
            /\ (traversals_succeed generate_ad_archives opts fs
                  (length (traversals w)) (search_terms_of opts) ->
                k = length (search_terms_of opts)))
      /\ (forall raw,
            api_search_term (request_for opts fs raw) = strip raw
            /\ api_fields (request_for opts fs raw) = fs
            /\ carries_overrides opts (request_for opts fs raw)).
Proof.
  intros gen opts w.
  assert (Hreq : forall fs raw,
             api_search_term (request_for opts fs raw) = strip raw
             /\ api_fields (request_for opts fs raw) = fs
             /\ carries_overrides opts (request_for opts fs raw)).
  { intros fs raw. split; [reflexivity|]. split; [reflexivity|].
    apply build_request_carries. }
  destruct (fields opts) as [| | |f| |] eqn:Hf;
    try (exists [], 0; split;
         [unfold collect_results, fields_of, bind; rewrite Hf; simpl;
          now rewrite app_nil_r
         | split; [intros f' Hf'; discriminate | apply Hreq]]).
  set (fs := (py "search_term," ++ f)%list).
  assert (Hlog : forall k,
             traversals (snd (for_terms gen opts fs (search_terms_of opts)
                                [] w))
             = traversals w
               ++ map (request_for opts fs) (firstn k (search_terms_of opts))
             -> traversals (snd (collect_results gen opts w))
                = traversals w
                  ++ map (request_for opts fs)
                       (firstn k (search_terms_of opts))).
  { intros k Hk. unfold collect_results, fields_of, bind. rewrite Hf.
    unfold ret at 1. fold fs.
    destruct (for_terms gen opts fs (search_terms_of opts) [] w)
      as [[a|e] w1]; exact Hk. }
  destruct (traversals_succeed_decide gen opts fs (length (traversals w))
              (search_terms_of opts)) as [Hok|Hbad].
  - exists fs, (length (search_terms_of opts)).
    split; [|split; [|apply Hreq]].
    + apply Hlog. rewrite (for_terms_run _ _ _ _ [] _ Hok). simpl.
      now rewrite firstn_all.
    + intros f' Hf'. injection Hf' as <-.
      split; [reflexivity | intros _; reflexivity].
  - destruct (for_terms_log gen opts fs (search_terms_of opts) [] w)
      as [k Hk].
    exists fs, k. split; [apply Hlog, Hk|]. split; [|apply Hreq].
    intros f' Hf'. injection Hf' as <-.
    split; [reflexivity | intros Hok; contradiction].
Qed.

(** A request with every override given. *)
Example full_request :
  traversals (snd (collect_results sample_generate full_opts
                     (initial_world sample_heap)))
  = [ {| api_access_token := py "TOKEN";
         api_fields := py "search_term,id";
         api_search_term := py "shoes";
         api_country := py "US";
         api_search_page_ids := Some (py "123");
         api_ad_active_status := Some (py "ALL");
         api_page_limit := Some 250%Z;
         api_retry_limit := Some 5%Z;
         api_after_date := Some (py "2020-01-01") |} ].
Proof. reflexivity. Qed.

(** Without [--search-terms] there is one traversal, for the empty term. *)
Lemma no_search_terms_one_traversal
    (gen : nat -> FbAdsLibraryTraversal -> list (list loc) * option pystr)
    (opts : Namespace) (f : pystr) (w : world) :
  search_terms opts = None ->
  fields opts = PyStr f ->
  traversals (snd (collect_results gen opts w))
  = traversals w ++ [build_request opts (py "search_term," ++ f) []].
Proof.
  intros Hs Hf.
  unfold collect_results, fields_of, search_terms_of. rewrite Hs, Hf.
  change (opt_str_truthy None) with false. cbv iota.
  unfold bind at 1. unfold ret at 1. cbn [for_terms]. unfold bind.
  rewrite for_term_run.
  match goal with
  | |- context [match snd ?g with Some _ => _ | None => _ end] =>
      destruct (snd g)
  end; reflexivity.
Qed.

(** ** Empty search terms *)

(** ["a,,b"]: three traversals, the second for the empty term, and the
    record it yields is tagged with the empty string. *)
Example double_comma_run :
  fst (collect_results blank_term_generate double_comma_opts
         (initial_world sample_heap))
  = Return (py "search_term,id", [0])
  /\ map api_search_term
       (traversals (snd (collect_results blank_term_generate
                           double_comma_opts (initial_world sample_heap))))
     = [py "a"; py ""; py "b"]
  /\ heap (snd (collect_results blank_term_generate double_comma_opts
                  (initial_world sample_heap))) 0
     = [(py "a", PyInt 1); (py "search_term", PyStr (py ""))].
Proof. repeat split. Qed.

(** The example of the specification, run from the collected records to
    the handler: [save_to_csv] receives the three tagged records in order. *)
Example shoes_bags_to_csv :
  handler_calls
    (snd ((r <- collect_results sample_generate sample_opts ;;
           dispatch_action sample_operators sample_opts (fst r) (snd r))
            (initial_world sample_heap)))
  = [ {| hc_action := py "save_to_csv";
         hc_records :=
           [ [(py "a", PyInt 1); (py "search_term", PyStr (py "shoes"))];
             [(py "a", PyInt 2); (py "search_term", PyStr (py "bags"))];
             [(py "a", PyInt 3); (py "search_term", PyStr (py "bags"))] ];
         hc_args := [py "out.csv"];
         hc_fields := Some (py "search_term,id");
         hc_verbose := false |} ].
Proof. reflexivity. Qed.

(** * Further properties *)

(** ** [strip] and [split] *)

Lemma lstrip_suffix (s : pystr) :
  exists p, s = p ++ lstrip s /\ forallb isspace p = true.
Proof.
  induction s as [|c s IH]; simpl.
  - exists []. split; reflexivity.
  - destruct (isspace c) eqn:E.
    + destruct IH as (p & Hs & Hp). exists (c :: p). simpl.
      rewrite E, Hp. split; [now f_equal | reflexivity].
    + exists []. split; reflexivity.
Qed.

Lemma lstrip_no_leading_space (s : pystr) : no_leading_space (lstrip s).
Proof.
  induction s as [|c s IH]; simpl; [intros c' H; discriminate|].
  destruct (isspace c) eqn:E; [exact IH|].
  intros c' H. simpl in H. now injection H as <-.
Qed.

Lemma lstrip_fixed (s : pystr) : no_leading_space s -> lstrip s = s.
Proof.
  destruct s as [|c s]; [reflexivity|]. intros H. simpl.
  now rewrite (H c eq_refl).
Qed.

Lemma lstrip_nil (s : pystr) : lstrip s = [] <-> forallb isspace s = true.
Proof.
  induction s as [|c s IH]; simpl; [tauto|].
  destruct (isspace c); simpl; [exact IH|]. split; discriminate.
Qed.

Lemma forallb_rev {A} (f : A -> bool) (l : list A) :
  forallb f (rev l) = forallb f l.
Proof.
  destruct (forallb f l) eqn:E.
  - apply forallb_forall. intros x Hx. apply in_rev in Hx.
    exact (proj1 (forallb_forall f l) E x Hx).
  - destruct (forallb f (rev l)) eqn:E'; [|reflexivity].
    rewrite <- E. symmetry. apply forallb_forall. intros x Hx.
    apply (proj1 (forallb_forall f (rev l)) E'). now apply in_rev in Hx.
Qed.

Lemma rstrip_prefix (s : pystr) :
  exists q, s = rstrip s ++ q /\ forallb isspace q = true.
Proof.
  destruct (lstrip_suffix (rev s)) as (p & Hs & Hp).
  exists (rev p). split; [|now rewrite forallb_rev].
  unfold rstrip. rewrite <- rev_app_distr, <- Hs. now rewrite rev_involutive.
Qed.

Lemma rstrip_no_trailing_space (s : pystr) : no_trailing_space (rstrip s).
Proof.
  unfold no_trailing_space, rstrip. rewrite rev_involutive.
  apply lstrip_no_leading_space.
Qed.

Lemma rstrip_fixed (s : pystr) : no_trailing_space s -> rstrip s = s.
Proof.
  intros H. unfold rstrip. rewrite lstrip_fixed by exact H.
  apply rev_involutive.
Qed.

Lemma rstrip_keeps_head (s : pystr) :
  no_leading_space s -> no_leading_space (rstrip s).
Proof.
  intros H c Hc. destruct (rstrip_prefix s) as (q & Hs & _).
  apply H. rewrite Hs. destruct (rstrip s); [discriminate | exact Hc].
Qed.

Lemma strip_no_leading_space (s : pystr) : no_leading_space (strip s).
Proof. apply rstrip_keeps_head, lstrip_no_leading_space. Qed.

Lemma strip_no_trailing_space (s : pystr) : no_trailing_space (strip s).
Proof. apply rstrip_no_trailing_space. Qed.

(** Stripping twice is stripping once. *)
Lemma strip_idempotent (s : pystr) : strip (strip s) = strip s.
Proof.
  unfold strip at 1.
  rewrite lstrip_fixed by apply strip_no_leading_space.
  apply rstrip_fixed, strip_no_trailing_space.
Qed.

(** [strip] only removes characters. *)
Lemma strip_In (s : pystr) (c : N) : In c (strip s) -> In c s.
Proof.
  intros H. unfold strip in H.
  destruct (rstrip_prefix (lstrip s)) as (q & Hq & _).
  destruct (lstrip_suffix s) as (p & Hp & _).
  rewrite Hp. apply in_or_app; right. rewrite Hq. apply in_or_app; now left.
Qed.

Lemma rstrip_nil (s : pystr) : rstrip s = [] <-> forallb isspace s = true.
Proof.
  unfold rstrip. rewrite <- (forallb_rev isspace s), <- lstrip_nil.
  split; intros H.
  - apply (f_equal (@rev _)) in H. now rewrite rev_involutive in H.
  - now rewrite H.
Qed.

(** A string strips to nothing exactly when it is all whitespace. *)
Lemma strip_nil (s : pystr) : strip s = [] <-> forallb isspace s = true.
Proof.
  unfold strip. rewrite rstrip_nil. split; intros H.
  - apply lstrip_nil. destruct (lstrip s) as [|c r] eqn:E; [reflexivity|].
    simpl in H. apply andb_true_iff in H. destruct H as [Hc _].
    pose proof (lstrip_no_leading_space s) as Hl. rewrite E in Hl.
    rewrite (Hl c eq_refl) in Hc. discriminate.
  - apply lstrip_nil in H. now rewrite H.
Qed.

Lemma strip_blank (s : pystr) :
  negb (str_truthy (strip s)) = forallb isspace s.
Proof.
  destruct (forallb isspace s) eqn:E.
  - apply strip_nil in E. now rewrite E.
  - destruct (strip s) eqn:E'; [|reflexivity].
    apply strip_nil in E'. congruence.
Qed.

(** The pieces of [split] hold a property exactly when every character
    that is not the separator does. *)
Lemma split_forallb (sep : N) (P : N -> bool) (s : pystr) :
  forallb (forallb P) (split sep s)
  = forallb (fun c => (c =? sep)%N || P c) s.
Proof.
  induction s as [|c s IH]; simpl; [reflexivity|].
  destruct (c =? sep)%N; simpl; [exact IH|].
  rewrite <- IH. destruct (split sep s) as [|t ts]; simpl.
  - now rewrite !andb_true_r.
  - now rewrite andb_assoc.
Qed.

(** No piece of [split] contains the separator. *)
Lemma split_pieces_no_sep (sep : N) (s : pystr) (t : pystr) :
  In t (split sep s) -> ~ In sep t.
Proof.
  revert t; induction s as [|c s IH]; simpl; intros t.
  - intros [<-|[]] [].
  - destruct (N.eqb_spec c sep) as [->|Hne].
    + intros [<-|H]; [intros [] | now apply IH].
    + pose proof (split_not_nil sep s) as Hnn.
      destruct (split sep s) as [|t0 ts]; [congruence|].
      intros [<-|H].
      * intros [E|E]; [congruence|]. apply (IH t0); [now left | exact E].
      * apply IH. now right.
Qed.

(** Joining comma-free pieces and splitting again gives the pieces back. *)
Lemma split_join (sep : N) (l : list pystr) :
  l <> [] ->
  (forall t, In t l -> ~ In sep t) ->
  split sep (join [sep] l) = l.
Proof.
  induction l as [|x l IH]; [congruence|]. intros _ Hno.
  assert (Hx : ~ In sep x) by (apply Hno; now left).
  destruct l as [|y l].
  - simpl. clear IH Hno. induction x as [|c x IHx]; [reflexivity|].
    simpl. destruct (N.eqb_spec c sep) as [->|Hne];
      [exfalso; apply Hx; now left|].
    rewrite IHx by (intros H; apply Hx; now right). reflexivity.
  - assert (IH' : split sep (join [sep] (y :: l)) = y :: l).
    { apply IH; [discriminate|]. intros t Ht. apply Hno. now right. }
    change (join [sep] (x :: y :: l))
      with (x ++ [sep] ++ join [sep] (y :: l)).
    clear IH Hno. set (rest := join [sep] (y :: l)) in *.
    induction x as [|c x IHx].
    + simpl. rewrite N.eqb_refl. now rewrite IH'.
    + simpl. destruct (N.eqb_spec c sep) as [->|Hne];
        [exfalso; apply Hx; now left|].
      simpl in IHx. rewrite IHx by (intros H; apply Hx; now right).
      reflexivity.
Qed.

(** [",".join(s.split(","))] is [s]. *)
Lemma join_split (sep : N) (s : pystr) : join [sep] (split sep s) = s.
Proof.
  induction s as [|c s IH]; simpl; [reflexivity|].
  pose proof (split_not_nil sep s) as Hnn.
  destruct (N.eqb_spec c sep) as [->|Hne].
  - destruct (split sep s) as [|t ts]; [congruence|].
    change (join [sep] ([] :: t :: ts)) with (sep :: join [sep] (t :: ts)).
    now rewrite IH.
  - destruct (split sep s) as [|t ts]; [congruence|].
    destruct ts as [|t' ts].
    + simpl in *. now rewrite IH.
    + change (join [sep] ((c :: t) :: t' :: ts))
        with (c :: join [sep] (t :: t' :: ts)).
      now rewrite IH.
Qed.

(** ** More on the validators *)

Lemma filter_nil_forallb {A} (f : A -> bool) (l : list A) :
  filter f l = [] <-> forallb (fun x => negb (f x)) l = true.
Proof.
  induction l as [|x l IH]; simpl; [tauto|].
  destruct (f x); simpl; [split; discriminate | exact IH].
Qed.

Lemma filter_all {A} (f : A -> bool) (l : list A) :
  (forall x, In x l -> f x = true) -> filter f l = l.
Proof.
  induction l as [|x l IH]; intros H; simpl; [reflexivity|].
  rewrite (H x) by now left. f_equal. apply IH. intros y Hy. apply H.
  now right.
Qed.

Lemma forallb_same {A} (f g : A -> bool) (l : list A) :
  (forall x, f x = g x) -> forallb f l = forallb g l.
Proof.
  intros H. induction l as [|x l IH]; simpl; [reflexivity|].
  now rewrite H, IH.
Qed.

(** No token is kept exactly when the input is made of commas and
    whitespace only. *)
Lemma country_list_blank (s : pystr) :
  country_list_of s = [] <-> forallb comma_or_space s = true.
Proof.
  unfold country_list_of. rewrite filter_nil_forallb.
  rewrite (forallb_same _ (forallb isspace) _ strip_blank).
  now rewrite split_forallb.
Qed.

Lemma fields_list_map_strip (s : pystr) :
  fields_list_of s = map strip (country_list_of s).
Proof.
  unfold fields_list_of, country_list_of.
  induction (split comma s) as [|x l IH]; simpl; [reflexivity|].
  destruct (str_truthy (strip x)); simpl; now rewrite IH.
Qed.

(** X6.  The two validators cut their input alike: the tokens the fields
    validator keeps are the tokens the country validator keeps, stripped;
    so both keep the same number of tokens, and one keeps none exactly
    when the other does. *)
Theorem fields_list_is_stripped_country_list :
  forall s : pystr,
    fields_list_of s = map strip (country_list_of s)
    /\ length (fields_list_of s) = length (country_list_of s)
    /\ (fields_list_of s = [] <-> country_list_of s = []).
Proof.
  intros s. rewrite fields_list_map_strip.
  split; [reflexivity|]. split; [apply length_map|].
  destruct (country_list_of s); simpl; split; congruence.
Qed.

Lemma fields_list_blank (s : pystr) :
  fields_list_of s = [] <-> forallb comma_or_space s = true.
Proof.
  rewrite fields_list_map_strip, <- country_list_blank.
  destruct (country_list_of s); simpl; split; congruence.
Qed.

(** X4.  A non-empty country input is refused with "Country cannot be
    empty" exactly when it consists of commas and whitespace only. *)
Theorem validate_country_empty_error_iff :
  forall (get_country_code : pystr -> option pystr) (s : pystr),
    s <> [] ->
    (validate_country_param get_country_code s
     = Raise (ArgumentTypeError (py "Country cannot be empty"))
     <-> forallb comma_or_space s = true).
Proof.
  intros gcc s Hne. split.
  - intros H. apply country_list_blank.
    destruct (country_list_of s) as [|t l] eqn:El; [reflexivity|].
    exfalso. unfold validate_country_param in H. rewrite El in H.
    destruct s; [congruence|]. simpl negb in H. cbv iota in H.
    destruct (list_truthy (invalid_inputs_of gcc (t :: l))).
    + simpl in H. discriminate.
    + unfold join_values in H.
      destruct (all_str (map gcc (t :: l))); discriminate.
  - intros H. apply validate_country_blank_tokens; [exact Hne|].
    now apply country_list_blank.
Qed.

Lemma validate_country_empty_error_iff_witness :
  py " , ," <> []
  /\ (validate_country_param sample_get_country_code (py " , ,")
      = Raise (ArgumentTypeError (py "Country cannot be empty"))
      <-> forallb comma_or_space (py " , ,") = true).
Proof.
  assert (H : py " , ," <> []) by discriminate.
  split; [exact H|].
  exact (@validate_country_empty_error_iff sample_get_country_code
           (py " , ,") H).
Defined.

(** X5.  A non-empty fields input is refused with "Fields cannot be empty"
    exactly when it consists of commas and whitespace only. *)
Theorem validate_fields_empty_error_iff :
  forall (is_valid_fields : pystr -> bool) (s : pystr),
    s <> [] ->
    (validate_fields_param is_valid_fields s
     = Raise (ArgumentTypeError (py "Fields cannot be empty"))
     <-> forallb comma_or_space s = true).
Proof.
  intros valid s Hne. split.
  - intros H. apply fields_list_blank.
    destruct (fields_list_of s) as [|t l] eqn:El; [reflexivity|].
    exfalso. unfold validate_fields_param in H. cbv zeta in H.
    rewrite El in H.
    set (bad := filter (fun x => negb (valid x)) (t :: l)) in H.
    destruct s; [congruence|]. simpl negb in H. cbv iota in H.
    destruct (list_truthy bad); simpl in H; discriminate.
  - intros H. apply validate_fields_blank_tokens; [exact Hne|].
    now apply fields_list_blank.
Qed.

Lemma validate_fields_empty_error_iff_witness :
  py ",  ," <> []
  /\ (validate_fields_param sample_is_valid_fields (py ",  ,")
      = Raise (ArgumentTypeError (py "Fields cannot be empty"))
      <-> forallb comma_or_space (py ",  ,") = true).
Proof.
  assert (H : py ",  ," <> []) by discriminate.
  split; [exact H|].
  exact (@validate_fields_empty_error_iff sample_is_valid_fields
           (py ",  ,") H).
Defined.

Lemma first_seen_nil (l : list pystr) : first_seen [] l = [] -> l = [].
Proof. destruct l; simpl; [reflexivity | discriminate]. Qed.

(** When the dict of lines 75-79 is empty, every kept token resolved. *)
Lemma invalid_inputs_empty (gcc : pystr -> option pystr) (l : list pystr) :
  invalid_inputs_of gcc l = [] ->
  forall t, In t l -> gcc t <> None.
Proof.
  intros H t Ht Hn.
  pose proof (invalid_inputs_keys gcc l) as Hk. rewrite H in Hk.
  symmetry in Hk. apply first_seen_nil in Hk.
  assert (Hin : In t (filter (fun x => is_none (gcc x)) l)).
  { apply filter_In. split; [exact Ht | now rewrite Hn]. }
  rewrite Hk in Hin. destruct Hin.
Qed.

(** X3.  Neither validator raises anything but [ArgumentTypeError]; in
    particular the [join] of line 86 never meets a [None]. *)
Theorem validators_raise_only_argument_type_error :
  forall (get_country_code : pystr -> option pystr)
         (is_valid_fields : pystr -> bool) (s : pystr) (e : exn),
    (validate_country_param get_country_code s = Raise e ->
     exists msg, e = ArgumentTypeError msg)
    /\ (validate_fields_param is_valid_fields s = Raise e ->
        exists msg, e = ArgumentTypeError msg).
Proof.
  intros gcc valid s e. split.
  - unfold validate_country_param.
    destruct (negb (str_truthy s)); [discriminate|].
    destruct (negb (list_truthy (country_list_of s)));
      [intros H; injection H as <-; eauto|].
    destruct (list_truthy (invalid_inputs_of gcc (country_list_of s))) eqn:E;
      [intros H; injection H as <-; eauto|].
    apply list_truthy_false in E.
    destruct (resolved_codes gcc _ (invalid_inputs_empty gcc _ E))
      as [codes Hc].
    unfold join_values. rewrite (@all_str_resolved _ _ Hc). discriminate.
  - unfold validate_fields_param.
    destruct (negb (str_truthy s)); [discriminate|].
    destruct (negb (list_truthy (fields_list_of s)));
      [intros H; injection H as <-; eauto|].
    destruct (negb (list_truthy _)); [discriminate|].
    intros H; injection H as <-; eauto.
Qed.

Lemma validators_raise_only_argument_type_error_witness :
  validate_country_param sample_get_country_code (py "ZZ")
  = Raise (ArgumentTypeError (py "Invalid/unsupported country code: ZZ"))
  /\ exists msg,
       ArgumentTypeError (py "Invalid/unsupported country code: ZZ")
       = ArgumentTypeError msg.
Proof.
  assert (H : validate_country_param sample_get_country_code (py "ZZ")
              = Raise (ArgumentTypeError
                         (py "Invalid/unsupported country code: ZZ")))
    by reflexivity.
  split; [exact H|].
  exact (proj1 (@validators_raise_only_argument_type_error
                  sample_get_country_code sample_is_valid_fields (py "ZZ")
                  _) H).
Defined.

Lemma first_seen_NoDup (seen l : list pystr) :
  NoDup (first_seen seen l)
  /\ forall x, In x (first_seen seen l) -> ~ In x seen.
Proof.
  revert seen; induction l as [|x l IH]; intros seen; simpl.
  - split; [constructor | intros y []].
  - destruct (str_in x seen) eqn:E; [apply IH|].
    destruct (IH (seen ++ [x])) as [Hnd Hdis]. split.
    + constructor; [|exact Hnd].
      intros Hin. apply (Hdis x Hin), in_or_app. right; now left.
    + intros y [<-|Hy]; [now apply str_in_not_In|].
      intros Hs. apply (Hdis y Hy), in_or_app. now left.
Qed.

(** X7.  When some kept token fails to resolve, the country validator's
    message is the prefix followed by the comma-joined keys of the dict of
    lines 75-79, and these keys are pairwise distinct: an unknown token
    that is written several times is reported once. *)
Theorem validate_country_reports_each_token_once :
  forall (get_country_code : pystr -> option pystr) (s : pystr),
    (exists t, In t (country_list_of s) /\ get_country_code t = None) ->
    validate_country_param get_country_code s
    = Raise (ArgumentTypeError
               (py "Invalid/unsupported country code: "
                ++ join (py ",")
                     (dict_keys
                        (invalid_inputs_of get_country_code
                           (country_list_of s)))))
    /\ NoDup (dict_keys (invalid_inputs_of get_country_code
                           (country_list_of s))).
Proof.
  intros gcc s (t & Hin & Hnone). split.
  - assert (Hl : country_list_of s <> [])
      by (intros E; rewrite E in Hin; destruct Hin).
    unfold validate_country_param.
    rewrite (country_list_input_nonempty _ Hl). simpl negb. cbv iota.
    rewrite (proj2 (list_truthy_true _) Hl). simpl negb. cbv iota.
    destruct (list_truthy (invalid_inputs_of gcc (country_list_of s))) eqn:E;
      [reflexivity|].
    apply list_truthy_false in E.
    exfalso. exact (invalid_inputs_empty gcc _ E t Hin Hnone).
  - rewrite invalid_inputs_keys. apply first_seen_NoDup.
Qed.

Lemma validate_country_reports_each_token_once_witness :
  (exists t, In t (country_list_of (py "ZZ,US,ZZ"))
             /\ sample_get_country_code t = None)
  /\ validate_country_param sample_get_country_code (py "ZZ,US,ZZ")
     = Raise (ArgumentTypeError (py "Invalid/unsupported country code: ZZ"))
  /\ NoDup (dict_keys (invalid_inputs_of sample_get_country_code
                         (country_list_of (py "ZZ,US,ZZ")))).
Proof.
  assert (H : exists t, In t (country_list_of (py "ZZ,US,ZZ"))
                        /\ sample_get_country_code t = None).
  { exists (py "ZZ"). split; [left|]; reflexivity. }
  split; [exact H|].
  exact (@validate_country_reports_each_token_once sample_get_country_code
           (py "ZZ,US,ZZ") H).
Defined.

(** The tokens the fields validator keeps: non-empty, stripped and free of
    commas. *)
Lemma fields_list_tokens (s t : pystr) :
  In t (fields_list_of s) -> t <> [] /\ strip t = t /\ ~ In comma t.
Proof.
  unfold fields_list_of. rewrite filter_In, in_map_iff.
  intros [(x & <- & Hx) Ht]. split; [|split].
  - intros E. rewrite E in Ht. discriminate.
  - apply strip_idempotent.
  - intros Hc. apply strip_In in Hc.
    exact (split_pieces_no_sep comma s x Hx Hc).
Qed.

Lemma join_nonempty (sep : pystr) (l : list pystr) :
  (exists t, In t l /\ t <> []) -> join sep l <> [].
Proof.
  induction l as [|x l IH]; intros (t & Hin & Hne); [destruct Hin|].
  destruct l as [|y l].
  - destruct Hin as [->|[]]. exact Hne.
  - change (join sep (x :: y :: l)) with (x ++ sep ++ join sep (y :: l)).
    destruct Hin as [->|Hin].
    + destruct t; [congruence | discriminate].
    + intros E. apply app_eq_nil in E. destruct E as [_ E].
      apply app_eq_nil in E. destruct E as [_ E].
      apply IH; [exists t; auto | exact E].
Qed.

Lemma validate_fields_success (valid : pystr -> bool) (s out : pystr) :
  validate_fields_param valid s = Return (PyStr out)
  <-> fields_list_of s <> []
      /\ (forall t, In t (fields_list_of s) -> valid t = true)
      /\ out = join (py ",") (fields_list_of s).
Proof.
  unfold validate_fields_param. cbv zeta.
  set (l := fields_list_of s).
  set (bad := filter (fun x => negb (valid x)) l).
  assert (Hbad : bad = [] <-> forall t, In t l -> valid t = true).
  { unfold bad. rewrite filter_nil_forallb, forallb_forall.
    split; intros H t Ht; specialize (H t Ht);
      destruct (valid t); simpl in *; congruence. }
  split.
  - destruct (negb (str_truthy s)); [discriminate|].
    destruct l as [|t0 l0] eqn:El; [discriminate|]. simpl negb. cbv iota.
    destruct bad as [|b0 bad0] eqn:Eb; simpl; [|discriminate].
    intros H. injection H as <-.
    split; [discriminate|]. split; [now apply Hbad | reflexivity].
  - intros (Hne & Hok & ->).
    assert (Hs : str_truthy s = true).
    { apply fields_list_input_nonempty. exact Hne. }
    rewrite Hs. simpl negb. cbv iota.
    rewrite (proj2 (list_truthy_true _) Hne). simpl negb. cbv iota.
    now rewrite (proj2 Hbad Hok).
Qed.

(** X1.  The fields validator returns a string exactly when it keeps at
    least one token and every kept token is a valid field; the string is
    then the kept tokens -- stripped, non-empty, free of commas -- joined
    by commas in input order, repeated names included. *)
Theorem validate_fields_success_iff :
  forall (is_valid_fields : pystr -> bool) (s out : pystr),
    (validate_fields_param is_valid_fields s = Return (PyStr out)
     <-> fields_list_of s <> []
         /\ (forall t, In t (fields_list_of s) -> is_valid_fields t = true)
         /\ out = join (py ",") (fields_list_of s))
    /\ (forall t, In t (fields_list_of s) ->
          t <> [] /\ strip t = t /\ ~ In comma t).
Proof.
  intros valid s out. split; [apply validate_fields_success|].
  intros t. apply fields_list_tokens.
Qed.

(** X2.  A string the fields validator returns is in normal form: split
    at the commas it gives back the kept tokens, and the validator returns
    it unchanged when it is validated again. *)
Theorem validate_fields_idempotent :
  forall (is_valid_fields : pystr -> bool) (s out : pystr),
    validate_fields_param is_valid_fields s = Return (PyStr out) ->
    split comma out = fields_list_of s
    /\ fields_list_of out = fields_list_of s
    /\ validate_fields_param is_valid_fields out = Return (PyStr out).
Proof.
  intros valid s out H.
  apply validate_fields_success in H. destruct H as (Hne & Hok & ->).
  set (l := fields_list_of s) in *.
  assert (Htok : forall t, In t l -> t <> [] /\ strip t = t /\ ~ In comma t)
    by (intros t; apply fields_list_tokens).
  assert (Hsplit : split comma (join (py ",") l) = l).
  { change (py ",") with [comma]. apply split_join; [exact Hne|].
    intros t Ht. now apply Htok. }
  assert (Hlist : fields_list_of (join (py ",") l) = l).
  { unfold fields_list_of at 1. rewrite Hsplit.
    replace (map strip l) with l.
    - apply filter_all. intros t Ht.
      destruct (Htok t Ht) as (Ht0 & _). destruct t; [congruence|reflexivity].
    - rewrite <- (map_id l) at 1. apply map_ext_in.
      intros t Ht. symmetry. now apply Htok. }
  split; [exact Hsplit|]. split; [exact Hlist|].
  apply validate_fields_success. rewrite Hlist.
  split; [exact Hne|]. split; [exact Hok | reflexivity].
Qed.

Lemma validate_fields_idempotent_witness :
  validate_fields_param sample_is_valid_fields (py " id , page_id,,id")
  = Return (PyStr (py "id,page_id,id"))
  /\ split comma (py "id,page_id,id")
     = fields_list_of (py " id , page_id,,id")
  /\ fields_list_of (py "id,page_id,id")
     = fields_list_of (py " id , page_id,,id")
  /\ validate_fields_param sample_is_valid_fields (py "id,page_id,id")
     = Return (PyStr (py "id,page_id,id")).
Proof.
  assert (H : validate_fields_param sample_is_valid_fields
                (py " id , page_id,,id")
              = Return (PyStr (py "id,page_id,id"))) by reflexivity.
  split; [exact H|].
  exact (@validate_fields_idempotent sample_is_valid_fields
           (py " id , page_id,,id") (py "id,page_id,id") H).
Defined.

(** ** More on argument parsing *)

Lemma validate_country_raises (gcc : pystr -> option pystr) (s : pystr)
    (e : exn) :
  validate_country_param gcc s = Raise e ->
  exists msg, e = ArgumentTypeError msg.
Proof.
  unfold validate_country_param.
  destruct (negb (str_truthy s)); [discriminate|].
  destruct (negb (list_truthy (country_list_of s)));
    [intros H; injection H as <-; eauto|].
  destruct (list_truthy (invalid_inputs_of gcc (country_list_of s))) eqn:E;
    [intros H; injection H as <-; eauto|].
  apply list_truthy_false in E.
  destruct (resolved_codes gcc _ (invalid_inputs_empty gcc _ E))
    as [codes Hc].
  unfold join_values. rewrite (@all_str_resolved _ _ Hc). discriminate.
Qed.

Lemma validate_fields_raises (valid : pystr -> bool) (s : pystr) (e : exn) :
  validate_fields_param valid s = Raise e ->
  exists msg, e = ArgumentTypeError msg.
Proof.
  unfold validate_fields_param.
  destruct (negb (str_truthy s)); [discriminate|].
  destruct (negb (list_truthy (fields_list_of s)));
    [intros H; injection H as <-; eauto|].
  destruct (negb (list_truthy _)); [discriminate|].
  intros H; injection H as <-; eauto.
Qed.

Section ParseInvariants.
Variable gcc : pystr -> option pystr.
Variable valid : pystr -> bool.
Variable env : argparse_env.

(** What one flag does to the three required attributes. *)
Lemma parse_flag_required (p p' : partial_namespace) (f : cli_flag) :
  parse_flag gcc valid env p f = inr p' ->
  (p_access_token p' = p_access_token p
   \/ exists s, f = FlagAccessToken s /\ p_access_token p' = Some s)
  /\ (p_fields p' = p_fields p
      \/ exists s, f = FlagFields s
                   /\ validate_fields_param valid s = Return (fields_value p'))
  /\ (p_country p' = p_country p
      \/ exists s, f = FlagCountry s
                   /\ validate_country_param gcc s = Return (country_value p')).
Proof.
  destruct f as [|s|s|s|s|s|s|s|s|s| |msg|s]; simpl; try discriminate.
  - intros H; injection H as <-; simpl.
    split; [right; eauto|]. split; now left.
  - destruct (validate_fields_param valid s) as [v|e] eqn:E; simpl;
      [|destruct e; discriminate].
    intros H; injection H as <-; simpl.
    split; [now left|]. split; [right; eauto | now left].
  - intros H; injection H as <-; simpl. repeat split; now left.
  - destruct (validate_country_param gcc s) as [v|e] eqn:E; simpl;
      [|destruct e; discriminate].
    intros H; injection H as <-; simpl.
    split; [now left|]. split; [now left | right; eauto].
  - intros H; injection H as <-; simpl. repeat split; now left.
  - intros H; injection H as <-; simpl. repeat split; now left.
  - intros H; injection H as <-; simpl. repeat split; now left.
  - unfold convert_int. destruct (py_int env s); [|discriminate].
    intros H; injection H as <-; simpl. repeat split; now left.
  - unfold convert_int. destruct (py_int env s); [|discriminate].
    intros H; injection H as <-; simpl. repeat split; now left.
  - intros H; injection H as <-; simpl. repeat split; now left.
  - intros H; injection H as <-; simpl. repeat split; now left.
Qed.

(** The required attributes of a finished parse come from flags that were
    written, through their validators. *)
Lemma parse_flags_required (fs : list cli_flag) (p p' : partial_namespace) :
  parse_flags gcc valid env p fs = inr p' ->
  (p_access_token p' = p_access_token p
   \/ exists s, In (FlagAccessToken s) fs /\ p_access_token p' = Some s)
  /\ (p_fields p' = p_fields p
      \/ exists s, In (FlagFields s) fs
                   /\ validate_fields_param valid s = Return (fields_value p'))
  /\ (p_country p' = p_country p
      \/ exists s, In (FlagCountry s) fs
                   /\ validate_country_param gcc s = Return (country_value p')).
Proof.
  revert p; induction fs as [|f fs IH]; intros p; simpl.
  - intros H; injection H as <-. repeat split; now left.
  - destruct (parse_flag gcc valid env p f) as [stop|p1] eqn:E;
      [discriminate|].
    intros H. destruct (IH _ H) as (Ha & Hf & Hc).
    destruct (parse_flag_required _ _ E) as (Ha1 & Hf1 & Hc1).
    split; [|split].
    + destruct Ha as [Ha|(s & Hin & Hs)]; [|right; exists s; auto].
      destruct Ha1 as [Ha1|(s & -> & Hs)]; [left; congruence|].
      right. exists s. split; [now left | congruence].
    + destruct Hf as [Hf|(s & Hin & Hs)]; [|right; exists s; auto].
      destruct Hf1 as [Hf1|(s & -> & Hs)]; [left; congruence|].
      right. exists s. split; [now left|].
      rewrite Hs. unfold fields_value. now rewrite Hf.
    + destruct Hc as [Hc|(s & Hin & Hs)]; [|right; exists s; auto].
      destruct Hc1 as [Hc1|(s & -> & Hs)]; [left; congruence|].
      right. exists s. split; [now left|].
      rewrite Hs. unfold country_value. now rewrite Hc.
Qed.

Lemma parse_args_parsed (inv : invocation) (opts : Namespace) :
  parse_args gcc valid env inv = Parsed opts ->
  In (FlagAccessToken (access_token opts)) (inv_flags inv)
  /\ (exists s, In (FlagFields s) (inv_flags inv)
                /\ validate_fields_param valid s = Return (fields opts))
  /\ (exists s, In (FlagCountry s) (inv_flags inv)
                /\ validate_country_param gcc s = Return (country opts))
  /\ inv_action inv = Some (action opts)
  /\ args opts = inv_args inv.
Proof.
  unfold parse_args. destruct (inv_ambiguous inv); [discriminate|].
  destruct (parse_flags gcc valid env empty_namespace (inv_flags inv))
    as [[| |]|p] eqn:E; try discriminate.
  destruct (parse_flags_required _ _ E) as (Ha & Hf & Hc).
  unfold finish_parse.
  destruct (p_access_token p) as [t|] eqn:Et;
    destruct (p_fields p) as [f|] eqn:Ef;
    destruct (p_country p) as [c|] eqn:Ec;
    destruct (inv_action inv) as [a|]; try discriminate.
  destruct (list_truthy (p_extras p)); [discriminate|].
  intros H; injection H as <-; simpl.
  unfold fields_value in Hf. unfold country_value in Hc.
  rewrite Ef in Hf. rewrite Ec in Hc.
  split; [|split; [|split; [|split; reflexivity]]].
  - destruct Ha as [Ha|(s & Hin & Hs)]; [discriminate|]. congruence.
  - destruct Hf as [Hf|Hf]; [discriminate | exact Hf].
  - destruct Hc as [Hc|Hc]; [discriminate | exact Hc].
Qed.

(** No exception escapes the parse: the validators raise nothing but
    [ArgumentTypeError]. *)
Lemma parse_flag_no_raise (p : partial_namespace) (f : cli_flag) (e : exn) :
  parse_flag gcc valid env p f <> inl (StopRaise e).
Proof.
  destruct f as [|s|s|s|s|s|s|s|s|s| |msg|s]; simpl; try discriminate.
  - destruct (validate_fields_param valid s) as [v|e'] eqn:E; simpl;
      [discriminate|].
    destruct (validate_fields_raises _ _ E) as [m ->]. discriminate.
  - destruct (validate_country_param gcc s) as [v|e'] eqn:E; simpl;
      [discriminate|].
    destruct (validate_country_raises _ _ E) as [m ->]. discriminate.
  - unfold convert_int. destruct (py_int env s); discriminate.
  - unfold convert_int. destruct (py_int env s); discriminate.
Qed.

Lemma parse_flags_no_raise (fs : list cli_flag) (p : partial_namespace)
    (e : exn) :
  parse_flags gcc valid env p fs <> inl (StopRaise e).
Proof.
  revert p; induction fs as [|f fs IH]; intros p; simpl; [discriminate|].
  destruct (parse_flag gcc valid env p f) as [stop|p1] eqn:E; [|apply IH].
  intros H. injection H as ->. exact (parse_flag_no_raise _ _ E).
Qed.

Lemma parse_args_no_escape (inv : invocation) (e : exn) :
  parse_args gcc valid env inv <> Escapes e.
Proof.
  unfold parse_args. destruct (inv_ambiguous inv); [discriminate|].
  destruct (parse_flags gcc valid env empty_namespace (inv_flags inv))
    as [[| |e']|p] eqn:E; try discriminate.
  - now destruct (parse_flags_no_raise _ _ E).
  - unfold finish_parse.
    destruct (p_access_token p), (p_fields p), (p_country p),
      (inv_action inv); try discriminate.
    destruct (list_truthy (p_extras p)); discriminate.
Qed.



End ParseInvariants.

(** X9.  The options [main] works on have passed the validators: the
    access token is one that was written, and the fields and country values
    are what [validate_fields_param] and [validate_country_param] returned
    for a [--fields] and a [--country] value of the command line; the
    action and its arguments are the positional ones. *)
Theorem parsed_options_are_validated :
  forall (get_country_code : pystr -> option pystr)
         (is_valid_fields : pystr -> bool) (env : argparse_env)
         (inv : invocation) (opts : Namespace),
    parse_args get_country_code is_valid_fields env inv = Parsed opts ->
    In (FlagAccessToken (access_token opts)) (inv_flags inv)
    /\ (exists s, In (FlagFields s) (inv_flags inv)
                  /\ validate_fields_param is_valid_fields s
                     = Return (fields opts))
    /\ (exists s, In (FlagCountry s) (inv_flags inv)
                  /\ validate_country_param get_country_code s
                     = Return (country opts))
    /\ inv_action inv = Some (action opts)
    /\ args opts = inv_args inv.
Proof. intros gcc valid env inv opts. apply parse_args_parsed. Qed.

Lemma parsed_options_are_validated_witness :
  parse_args sample_get_country_code sample_is_valid_fields sample_env
    no_selector_invocation
  = Parsed
      {| access_token := py "TOKEN"; fields := PyStr (py "id");
         search_terms := None; country := py "US";
         search_page_ids := None; ad_active_status := None;
         after_date := None; batch_size := None; retry_limit := None;
         verbose := false; action := py "save_to_csv";
         args := [py "out.csv"] |}
  /\ exists s, In (FlagCountry s) (inv_flags no_selector_invocation)
               /\ validate_country_param sample_get_country_code s
                  = Return (py "US").
Proof.
  assert (H : parse_args sample_get_country_code sample_is_valid_fields
                sample_env no_selector_invocation
              = Parsed
                  {| access_token := py "TOKEN"; fields := PyStr (py "id");
                     search_terms := None; country := py "US";
                     search_page_ids := None; ad_active_status := None;
                     after_date := None; batch_size := None;
                     retry_limit := None; verbose := false;
                     action := py "save_to_csv";
                     args := [py "out.csv"] |}) by reflexivity.
  split; [exact H|].
  exact (proj1 (proj2 (proj2
           (@parsed_options_are_validated sample_get_country_code
              sample_is_valid_fields sample_env no_selector_invocation
              _ H)))).
Defined.



(** X10.  No invocation reaches lines 114-151.  [main] ends in one of
    three ways: the help text on standard output and status 0 ([-h]); the
    usage text and an error message on standard error and status 2; or,
    when the arguments parse, [AttributeError] at line 110 and status 1,
    with nothing printed.  In every case no traversal is run, no record is
    touched and no handler is called. *)
Theorem main_never_reaches_the_traversals :
  forall (get_country_code : pystr -> option pystr)
         (is_valid_fields : pystr -> bool) (env : argparse_env)
         (get_operators : list pystr)
         (generate_ad_archives :
            nat -> FbAdsLibraryTraversal -> list (list loc) * option pystr)
         (inv : invocation) (w : world),
    ((parse_args get_country_code is_valid_fields env inv = HelpRequested
      /\ fst (main get_country_code is_valid_fields env get_operators
                generate_ad_archives inv w) = Raise (SystemExit 0)
      /\ stdout (snd (main get_country_code is_valid_fields env
                        get_operators generate_ad_archives inv w))
         = stdout w ++ [help_text env]
      /\ stderr (snd (main get_country_code is_valid_fields env
                        get_operators generate_ad_archives inv w))
         = stderr w)
     \/ (exists msg,
           parse_args get_country_code is_valid_fields env inv
           = UsageError msg
           /\ fst (main get_country_code is_valid_fields env get_operators
                     generate_ad_archives inv w) = Raise (SystemExit 2)
           /\ stdout (snd (main get_country_code is_valid_fields env
                             get_operators generate_ad_archives inv w))
              = stdout w
           /\ stderr (snd (main get_country_code is_valid_fields env
                             get_operators generate_ad_archives inv w))
              = stderr w
                ++ [usage_text env; prog env ++ py ": error: " ++ msg])
     \/ (exists opts,
           parse_args get_country_code is_valid_fields env inv = Parsed opts
           /\ fst (main get_country_code is_valid_fields env get_operators
                     generate_ad_archives inv w)
              = Raise (AttributeError (py "search_term"))
           /\ exit_status
                (fst (main get_country_code is_valid_fields env
                        get_operators generate_ad_archives inv w)) = 1%Z
           /\ stdout (snd (main get_country_code is_valid_fields env
                             get_operators generate_ad_archives inv w))
              = stdout w
           /\ stderr (snd (main get_country_code is_valid_fields env
                             get_operators generate_ad_archives inv w))
              = stderr w))
    /\ traversals (snd (main get_country_code is_valid_fields env
                          get_operators generate_ad_archives inv w))
       = traversals w
    /\ handler_calls (snd (main get_country_code is_valid_fields env
                             get_operators generate_ad_archives inv w))
       = handler_calls w
    /\ heap (snd (main get_country_code is_valid_fields env get_operators
                    generate_ad_archives inv w))
       = heap w.
Proof.
  intros gcc valid env ops gen inv w. unfold main.
  destruct (parse_args gcc valid env inv) as [opts| |msg|e] eqn:E.
  - rewrite main_on_raises. simpl.
    split; [right; right; exists opts; repeat split|]. repeat split.
  - split; [left; repeat split|]. repeat split.
  - rewrite parser_error_run. simpl.
    split; [right; left; exists msg; repeat split|]. repeat split.
  - now destruct (parse_args_no_escape gcc valid env inv E).
Qed.

(** ** More on the loop over the search terms *)

Lemma dict_get_set_other {V} (k k' : pystr) (v : V) (d : pydict V) :
  k <> k' -> dict_get k (dict_set k' v d) = dict_get k d.
Proof.
  intros Hne. induction d as [|[kd vd] d IH]; simpl.
  - now rewrite (proj2 (str_eqb_neq k k') Hne).
  - destruct (str_eqb k' kd) eqn:E; simpl.
    + apply str_eqb_eq in E. subst kd.
      now rewrite (proj2 (str_eqb_neq k k') Hne).
    + destruct (str_eqb k kd); [reflexivity | exact IH].
Qed.

(** Tagging changes no other field of a record. *)
Lemma tag_all_get_other (term k : pystr) (ads : list loc)
    (h : loc -> record) (l : loc) :
  k <> py "search_term" ->
  dict_get k (tag_all term ads h l) = dict_get k (h l).
Proof.
  intros Hk. revert h; induction ads as [|a ads IH]; intros h;
    [reflexivity|].
  simpl. rewrite IH. unfold heap_set.
  destruct (Nat.eqb_spec l a) as [->|Hne]; [|reflexivity].
  unfold tagged. now apply dict_get_set_other.
Qed.

Lemma tag_groups_get_other (k : pystr) (groups : list (pystr * list loc))
    (h : loc -> record) (l : loc) :
  k <> py "search_term" ->
  dict_get k (tag_groups groups h l) = dict_get k (h l).
Proof.
  intros Hk. revert h; induction groups as [|g groups IH]; intros h;
    [reflexivity|].
  change (tag_groups (g :: groups) h)
    with (tag_groups groups (tag_all (fst g) (snd g) h)).
  rewrite IH. now apply tag_all_get_other.
Qed.

Lemma tag_groups_app (a b : list (pystr * list loc)) (h : loc -> record) :
  tag_groups (a ++ b) h = tag_groups b (tag_groups a h).
Proof. apply fold_left_app. Qed.

Section MoreRunFacts.
Variable gen : nat -> FbAdsLibraryTraversal -> list (list loc) * option pystr.
Variable opts : Namespace.
Variable fs : pystr.

Lemma yielded_app (n : nat) (pre post : list pystr) :
  yielded gen opts fs n (pre ++ post)
  = yielded gen opts fs n pre ++ yielded gen opts fs (n + length pre) post.
Proof.
  revert n; induction pre as [|raw pre IH]; intros n; simpl.
  - now rewrite Nat.add_0_r.
  - rewrite IH. now replace (S n + length pre) with (n + S (length pre)) by lia.
Qed.

Lemma for_terms_state (terms : list pystr) (acc : list loc) (w : world) :
  exists k,
    snd (for_terms gen opts fs terms acc w)
    = after_terms gen opts fs k terms w
    /\ (terms <> [] -> 1 <= k).
Proof.
  revert acc w; induction terms as [|raw rest IH]; intros acc w.
  - exists 0. split; [|congruence]. unfold after_terms. simpl.
    rewrite app_nil_r. now destruct w.
  - simpl. unfold bind. rewrite for_term_run.
    destruct (snd (gen (length (traversals w)) (request_for opts fs raw))).
    + exists 1. split; [|lia]. reflexivity.
    + match goal with
      | |- context [for_terms gen opts fs rest ?a ?w1] =>
          destruct (IH a w1) as (k & Hk & _)
      end.
      exists (S k). split; [|lia]. rewrite Hk.
      unfold after_terms, after_term. simpl.
      rewrite length_app. simpl.
      replace (length (traversals w) + 1) with (S (length (traversals w)))
        by lia.
      now rewrite <- app_assoc.
Qed.
End MoreRunFacts.

Lemma search_terms_of_not_nil (opts : Namespace) : search_terms_of opts <> [].
Proof.
  unfold search_terms_of.
  destruct (opt_str_truthy (search_terms opts)); [|discriminate].
  destruct (search_terms opts); [apply split_not_nil | discriminate].
Qed.

(** No search term holds a comma. *)
Lemma search_terms_of_no_comma (opts : Namespace) (raw : pystr) :
  In raw (search_terms_of opts) -> ~ In comma raw.
Proof.
  unfold search_terms_of.
  destruct (opt_str_truthy (search_terms opts));
    [|intros [<-|[]] []].
  destruct (search_terms opts); [apply split_pieces_no_sep|].
  intros [<-|[]] [].
Qed.

(** The world lines 114-138 end in, whatever happens. *)
Lemma collect_results_state
    (gen : nat -> FbAdsLibraryTraversal -> list (list loc) * option pystr)
    (opts : Namespace) (w : world) :
  exists fs k,
    snd (collect_results gen opts w)
    = after_terms gen opts fs k (search_terms_of opts) w
    /\ (forall f, fields opts = PyStr f ->
          fs = (py "search_term," ++ f)%list /\ 1 <= k).
Proof.
  unfold collect_results, fields_of, bind.
  destruct (fields opts) as [| | |f| |] eqn:Hf;
    try (exists [], 0; split; [|intros f' Hf'; discriminate];
         unfold after_terms; simpl; rewrite app_nil_r; now destruct w).
  unfold ret at 1.
  destruct (for_terms_state gen opts (py "search_term," ++ f)
              (search_terms_of opts) [] w) as (k & Hk & Hpos).
  exists (py "search_term," ++ f)%list, k. split.
  - rewrite <- Hk.
    destruct (for_terms gen opts (py "search_term," ++ f)
                (search_terms_of opts) [] w) as [[a|e] w1]; reflexivity.
  - intros f' Hf'. injection Hf' as <-.
    split; [reflexivity | apply Hpos, search_terms_of_not_nil].
Qed.

Lemma firstn_In {A} (k : nat) (l : list A) (x : A) :
  In x (firstn k l) -> In x l.
Proof.
  revert l; induction k as [|k IH]; intros [|y l]; simpl; try tauto.
  intros [->|H]; [now left | right; now apply IH].
Qed.

(** X14.  Lines 114-138 change nothing but the [search_term] field of
    record objects: whatever the traversals yield and whether or not one of
    them fails, every other field of every record reads as before, and
    nothing is printed and no handler is called. *)
Theorem collect_results_touches_only_search_term :
  forall (generate_ad_archives :
            nat -> FbAdsLibraryTraversal -> list (list loc) * option pystr)
         (opts : Namespace) (w : world) (l : loc) (k : pystr),
    (k <> py "search_term" ->
     dict_get k (heap (snd (collect_results generate_ad_archives opts w)) l)
     = dict_get k (heap w l))
    /\ stdout (snd (collect_results generate_ad_archives opts w)) = stdout w
    /\ stderr (snd (collect_results generate_ad_archives opts w)) = stderr w
    /\ handler_calls (snd (collect_results generate_ad_archives opts w))
       = handler_calls w.
Proof.
  intros gen opts w l k.
  destruct (collect_results_state gen opts w) as (fs & n & Hw & _).
  rewrite Hw. unfold after_terms. simpl.
  split; [|repeat split]. intros Hk. now apply tag_groups_get_other.
Qed.

Lemma collect_results_touches_only_search_term_witness :
  py "a" <> py "search_term"
  /\ dict_get (py "a")
       (heap (snd (collect_results sample_generate sample_opts
                     (initial_world sample_heap))) 1)
     = dict_get (py "a") (heap (initial_world sample_heap) 1).
Proof.
  assert (H : py "a" <> py "search_term") by discriminate.
  split; [exact H|].
  exact (proj1 (@collect_results_touches_only_search_term sample_generate
                  sample_opts (initial_world sample_heap) 1 (py "a")) H).
Defined.

(** X11.  When the field specification is a string, lines 114-138 always
    run at least one traversal, and the first one is for the first search
    term, stripped (the empty term when [--search-terms] is absent or
    empty). *)
Theorem collect_results_runs_a_traversal :
  forall (generate_ad_archives :
            nat -> FbAdsLibraryTraversal -> list (list loc) * option pystr)
         (opts : Namespace) (f : pystr) (w : world),
    fields opts = PyStr f ->
    exists (raw : pystr) (rest : list pystr)
           (more : list FbAdsLibraryTraversal),
      search_terms_of opts = raw :: rest
      /\ traversals (snd (collect_results generate_ad_archives opts w))
         = traversals w
           ++ build_request opts (py "search_term," ++ f) (strip raw) :: more
      /\ (opt_str_truthy (search_terms opts) = false ->
          raw = [] /\ rest = [] /\ more = []).
Proof.
  intros gen opts f w Hf.
  destruct (collect_results_state gen opts w) as (fs & k & Hw & Hfs).
  destruct (Hfs f Hf) as [-> Hk].
  destruct (search_terms_of opts) as [|raw rest] eqn:Et;
    [now destruct (search_terms_of_not_nil opts)|].
  destruct k as [|k]; [lia|].
  exists raw, rest,
    (map (request_for opts (py "search_term," ++ f)) (firstn k rest)).
  split; [reflexivity|]. split; [rewrite Hw; reflexivity|].
  intros Hno. unfold search_terms_of in Et. rewrite Hno in Et.
  injection Et as <- <-. destruct k; repeat split.
Qed.

Lemma collect_results_runs_a_traversal_witness :
  fields sample_opts = PyStr (py "id")
  /\ exists (raw : pystr) (rest : list pystr)
            (more : list FbAdsLibraryTraversal),
       search_terms_of sample_opts = raw :: rest
       /\ traversals (snd (collect_results sample_generate sample_opts
                             (initial_world sample_heap)))
          = traversals (initial_world sample_heap)
            ++ build_request sample_opts (py "search_term," ++ py "id")
                 (strip raw) :: more
       /\ (opt_str_truthy (search_terms sample_opts) = false ->
           raw = [] /\ rest = [] /\ more = []).
Proof.
  assert (H : fields sample_opts = PyStr (py "id")) by reflexivity.
  split; [exact H|].
  exact (@collect_results_runs_a_traversal sample_generate sample_opts
           (py "id") (initial_world sample_heap) H).
Defined.

(** X12.  Every request lines 114-138 make is for a search term that is
    stripped -- no whitespace at either end -- and holds no comma, and the
    requests follow the order of the terms. *)
Theorem traversal_search_terms_are_stripped :
  forall (generate_ad_archives :
            nat -> FbAdsLibraryTraversal -> list (list loc) * option pystr)
         (opts : Namespace) (w : world),
    exists (k : nat),
      map api_search_term
        (skipn (length (traversals w))
           (traversals (snd (collect_results generate_ad_archives opts w))))
      = map strip (firstn k (search_terms_of opts))
      /\ forall t,
           In t (map strip (firstn k (search_terms_of opts))) ->
           strip t = t
           /\ no_leading_space t /\ no_trailing_space t /\ ~ In comma t.
Proof.
  intros gen opts w.
  destruct (collect_results_state gen opts w) as (fs & k & Hw & _).
  exists k. split.
  - rewrite Hw. unfold after_terms. simpl.
    rewrite skipn_app, skipn_all, Nat.sub_diag. simpl.
    rewrite map_map. reflexivity.
  - intros t Ht. apply in_map_iff in Ht. destruct Ht as (raw & <- & Hraw).
    split; [apply strip_idempotent|].
    split; [apply strip_no_leading_space|].
    split; [apply strip_no_trailing_space|].
    intros Hc. apply strip_In in Hc.
    apply firstn_In in Hraw.
    exact (search_terms_of_no_comma opts raw Hraw Hc).
Qed.

(** What the fields validator returns is [False], for the empty string
    only, or a string. *)
Lemma validate_fields_returns (valid : pystr -> bool) (s : pystr) (v : pyval) :
  validate_fields_param valid s = Return v ->
  (s = [] /\ v = PyBool false) \/ (s <> [] /\ exists out, v = PyStr out).
Proof.
  unfold validate_fields_param. destruct s as [|c s]; simpl negb; cbv iota.
  - intros H; injection H as <-. now left.
  - cbv zeta. destruct (negb (list_truthy _)); [discriminate|].
    destruct (negb (list_truthy _)); [|discriminate].
    intros H; injection H as <-. right. split; [discriminate | eauto].
Qed.

(** X13.  The value the fields validator returns decides line 115: for a
    non-empty [--fields] text it is a string and the field specification is
    "search_term," followed by it; for the empty text it is [False], and
    line 115 raises [TypeError] before any traversal is run or anything
    else happens. *)
Theorem fields_value_decides_line_115 :
  forall (is_valid_fields : pystr -> bool)
         (generate_ad_archives :
            nat -> FbAdsLibraryTraversal -> list (list loc) * option pystr)
         (opts : Namespace) (s : pystr) (w : world),
    validate_fields_param is_valid_fields s = Return (fields opts) ->
    (s = []
     /\ collect_results generate_ad_archives opts w = (Raise TypeError, w))
    \/ (s <> []
        /\ exists out,
             fields opts = PyStr out
             /\ fields_of opts w = (Return (py "search_term," ++ out), w)).
Proof.
  intros valid gen opts s w H.
  destruct (validate_fields_returns _ _ H) as [[-> Hv]|[Hne [out Hv]]].
  - left. split; [reflexivity|].
    unfold collect_results, fields_of, bind. now rewrite Hv.
  - right. split; [exact Hne|]. exists out. split; [exact Hv|].
    unfold fields_of. now rewrite Hv.
Qed.

Lemma fields_value_decides_line_115_witness :
  validate_fields_param sample_is_valid_fields (py "id")
  = Return (fields sample_opts)
  /\ ((py "id" = []
       /\ collect_results sample_generate sample_opts
            (initial_world sample_heap)
          = (Raise TypeError, initial_world sample_heap))
      \/ (py "id" <> []
          /\ exists out,
               fields sample_opts = PyStr out
               /\ fields_of sample_opts (initial_world sample_heap)
                  = (Return (py "search_term," ++ out),
                     initial_world sample_heap))).
Proof.
  assert (H : validate_fields_param sample_is_valid_fields (py "id")
              = Return (fields sample_opts)) by reflexivity.
  split; [exact H|].
  exact (@fields_value_decides_line_115 sample_is_valid_fields
           sample_generate sample_opts (py "id")
           (initial_world sample_heap) H).
Defined.

(** X15.  With record objects that may be yielded more than once, a run in
    which no traversal fails still returns one entry per yielded object, in
    (term, batch, within-batch) order -- nothing is merged -- and an object
    reads the stripped term of the last traversal that yielded it. *)
Theorem collect_results_last_term_wins :
  forall (generate_ad_archives :
            nat -> FbAdsLibraryTraversal -> list (list loc) * option pystr)
         (opts : Namespace) (f : pystr) (w : world),
    fields opts = PyStr f ->
    traversals_succeed generate_ad_archives opts (py "search_term," ++ f)
      (length (traversals w)) (search_terms_of opts) ->
    let fs := (py "search_term," ++ f)%list in
    let n := length (traversals w) in
    let groups := yielded generate_ad_archives opts fs n
                    (search_terms_of opts) in
    exists w' : world,
      collect_results generate_ad_archives opts w
      = (Return (fs, concat (map snd groups)), w')
      /\ length (concat (map snd groups))
         = list_sum (map (fun g => length (snd g)) groups)
      /\ forall pre raw post l,
           search_terms_of opts = pre ++ raw :: post ->
           In l (concat (fst (generate_ad_archives (n + length pre)
                                (request_for opts fs raw)))) ->
           ~ In l (concat (map snd (yielded generate_ad_archives opts fs
                                      (S (n + length pre)) post))) ->
           dict_get (py "search_term") (heap w' l)
           = Some (PyStr (strip raw)).
Proof.
  intros gen opts f w Hf Hok fs n groups.
  eexists. split; [apply (collect_results_run _ _ _ Hf Hok)|]. split.
  - clear. induction groups as [|g groups IH]; simpl; [reflexivity|].
    now rewrite length_app, IH.
  - intros pre raw post l Hterms Hin Hlater. simpl heap.
    fold fs. fold n. rewrite Hterms.
    rewrite yielded_app. simpl yielded.
    rewrite tag_groups_app.
    change (tag_groups (?g :: ?gs) ?h)
      with (tag_groups gs (tag_all (fst g) (snd g) h)).
    rewrite tag_groups_other by exact Hlater.
    simpl fst. simpl snd. apply tag_all_get. now left.
Qed.

Lemma collect_results_last_term_wins_witness :
  fields sample_opts = PyStr (py "id")
  /\ traversals_succeed aliasing_generate sample_opts (py "search_term,id")
       0 (search_terms_of sample_opts)
  /\ exists w' : world,
       collect_results aliasing_generate sample_opts
         (initial_world sample_heap)
       = (Return (py "search_term,id", [0; 0]), w')
       /\ dict_get (py "search_term") (heap w' 0)
          = Some (PyStr (py "bags")).
Proof.
  assert (H1 : fields sample_opts = PyStr (py "id")) by reflexivity.
  assert (H2 : traversals_succeed aliasing_generate sample_opts
                 (py "search_term," ++ py "id")
                 (length (traversals (initial_world sample_heap)))
                 (search_terms_of sample_opts)).
  { simpl. repeat split. }
  split; [exact H1|]. split; [exact H2|].
  destruct (@collect_results_last_term_wins aliasing_generate sample_opts
              (py "id") (initial_world sample_heap) H1 H2)
    as (w' & Hrun & _ & Hlast).
  exists w'. split; [exact Hrun|].
  apply (Hlast [py "shoes"] (py "bags") [] 0);
    [reflexivity | left; reflexivity | intros []].
Defined.

(** A run of the loop that fails at some term. *)
Lemma for_terms_failure
    (gen : nat -> FbAdsLibraryTraversal -> list (list loc) * option pystr)
    (opts : Namespace) (fs : pystr) (pre post : list pystr) (raw e : pystr)
    (acc : list loc) (w : world) :
  traversals_succeed gen opts fs (length (traversals w)) pre ->
  snd (gen (length (traversals w) + length pre) (request_for opts fs raw))
  = Some e ->
  for_terms gen opts fs (pre ++ raw :: post) acc w
  = (Raise (TraversalFailure e),
     after_terms gen opts fs (S (length pre)) (pre ++ raw :: post) w).
Proof.
  intros Hpre Hfail.
  rewrite for_terms_app, (for_terms_run _ _ _ _ acc _ Hpre).
  simpl for_terms. unfold bind. rewrite for_term_run.
  set (w1 := with_traversals _ _).
  assert (Hlen : length (traversals w1) = length (traversals w) + length pre).
  { unfold w1. simpl. now rewrite length_app, length_map. }
  rewrite Hlen, Hfail. f_equal.
  assert (Hfirst : firstn (S (length pre)) (pre ++ raw :: post)
                   = pre ++ [raw]).
  { change (S (length pre)) with (1 + length pre).
    rewrite Nat.add_comm, firstn_app_2. reflexivity. }
  unfold after_terms. rewrite Hfirst.
  rewrite yielded_app, tag_groups_app, map_app.
  unfold after_term. rewrite Hlen. unfold w1. simpl.
  now rewrite <- app_assoc.
Qed.

(** X16.  A traversal failure ends the run at once: when the traversals
    of the terms before [raw] succeed and the one for [raw] fails with
    [e], lines 114-138 raise that failure after the requests for these
    terms, in order, and make no request for a later term; the records
    yielded so far stay tagged, the aggregate is lost, and lines 140-151
    are not reached: no handler is called and nothing is printed. *)
Theorem traversal_failure_aborts_the_run :
  forall (get_operators : list pystr)
         (generate_ad_archives :
            nat -> FbAdsLibraryTraversal -> list (list loc) * option pystr)
         (opts : Namespace) (f : pystr) (pre post : list pystr)
         (raw e : pystr) (w : world),
    fields opts = PyStr f ->
    search_terms_of opts = pre ++ raw :: post ->
    traversals_succeed generate_ad_archives opts (py "search_term," ++ f)
      (length (traversals w)) pre ->
    snd (generate_ad_archives (length (traversals w) + length pre)
           (request_for opts (py "search_term," ++ f) raw))
    = Some e ->
    let fs := (py "search_term," ++ f)%list in
    exists w' : world,
      collect_results generate_ad_archives opts w
      = (Raise (TraversalFailure e), w')
      /\ collect_and_dispatch get_operators generate_ad_archives opts w
         = (Raise (TraversalFailure e), w')
      /\ exit_status (@Raise unit (TraversalFailure e)) = 1%Z
      /\ traversals w'
         = traversals w ++ map (request_for opts fs) (pre ++ [raw])
      /\ heap w'
         = tag_groups
             (yielded generate_ad_archives opts fs (length (traversals w))
                (pre ++ [raw]))
             (heap w)
      /\ handler_calls w' = handler_calls w
      /\ stdout w' = stdout w.
Proof.
  intros ops gen opts f pre post raw e w Hf Hterms Hpre Hfail fs.
  assert (Hrun : collect_results gen opts w
                 = (Raise (TraversalFailure e),
                    after_terms gen opts fs (S (length pre))
                      (pre ++ raw :: post) w)).
  { unfold collect_results, fields_of, bind. rewrite Hf. unfold ret at 1.
    rewrite Hterms. fold fs.
    now rewrite (@for_terms_failure gen opts fs pre post raw e [] w
                   Hpre Hfail). }
  eexists. split; [exact Hrun|].
  split; [unfold collect_and_dispatch, bind; now rewrite Hrun|].
  split; [reflexivity|].
  assert (Hfirst : firstn (S (length pre)) (pre ++ raw :: post)
                   = pre ++ [raw]).
  { change (S (length pre)) with (1 + length pre).
    rewrite Nat.add_comm, firstn_app_2. reflexivity. }
  unfold after_terms. rewrite Hfirst. simpl. repeat split.
Qed.

Lemma traversal_failure_aborts_the_run_witness :
  fields failing_opts = PyStr (py "id")
  /\ search_terms_of failing_opts = [py "a"] ++ py "b" :: [py "c"]
  /\ traversals_succeed failing_generate failing_opts (py "search_term,id")
       0 [py "a"]
  /\ snd (failing_generate 1
            (request_for failing_opts (py "search_term,id") (py "b")))
     = Some (py "rate limit")
  /\ exists w' : world,
       collect_results failing_generate failing_opts
         (initial_world sample_heap)
       = (Raise (TraversalFailure (py "rate limit")), w')
       /\ map api_search_term (traversals w') = [py "a"; py "b"]
       /\ handler_calls w' = [].
Proof.
  assert (H1 : fields failing_opts = PyStr (py "id")) by reflexivity.
  assert (H2 : search_terms_of failing_opts = [py "a"] ++ py "b" :: [py "c"])
    by reflexivity.
  assert (H3 : traversals_succeed failing_generate failing_opts
                 (py "search_term," ++ py "id")
                 (length (traversals (initial_world sample_heap)))
                 [py "a"]).
  { simpl. repeat split. }
  assert (H4 : snd (failing_generate
                      (length (traversals (initial_world sample_heap))
                       + length [py "a"])
                      (request_for failing_opts
                         (py "search_term," ++ py "id") (py "b")))
               = Some (py "rate limit")) by reflexivity.
  split; [exact H1|]. split; [exact H2|]. split; [exact H3|].
  split; [exact H4|].
  destruct (@traversal_failure_aborts_the_run sample_operators
              failing_generate failing_opts (py "id") [py "a"] [py "c"]
              (py "b") (py "rate limit") (initial_world sample_heap)
              H1 H2 H3 H4)
    as (w' & Hrun & _ & _ & Htr & _ & Hcalls & _).
  exists w'. split; [exact Hrun|]. split; [|exact Hcalls].
  rewrite Htr. reflexivity.
Defined.

Lemma build_request_overrides (opts : Namespace) (fs term : pystr) :
  overrides_from_options opts (build_request opts fs term).
Proof.
  unfold overrides_from_options, build_request; simpl.
  repeat split;
    match goal with
    | H : (if ?c then _ else _) = Some _ |- _ =>
        destruct c eqn:E; [|discriminate]
    end;
    try congruence;
    intros ->;
    match goal with
    | H : ?o = Some _, E : _ ?o = true |- _ => rewrite H in E; discriminate
    end.
Qed.

(** X17.  A request made by lines 114-138 never carries an empty filter, a
    batch size of 0 or a retry limit of 0: each override it carries is the
    value of the option, and that value is a non-empty string or an
    integer other than 0. *)
Theorem traversal_requests_carry_no_false_override :
  forall (generate_ad_archives :
            nat -> FbAdsLibraryTraversal -> list (list loc) * option pystr)
         (opts : Namespace) (w : world) (api : FbAdsLibraryTraversal),
    In api (skipn (length (traversals w))
              (traversals (snd (collect_results generate_ad_archives
                                  opts w)))) ->
    overrides_from_options opts api
    /\ api_access_token api = access_token opts
    /\ api_country api = country opts.
Proof.
  intros gen opts w api Hin.
  destruct (collect_results_state gen opts w) as (fs & k & Hw & _).
  rewrite Hw in Hin. unfold after_terms in Hin. simpl in Hin.
  rewrite skipn_app, skipn_all, Nat.sub_diag in Hin. simpl in Hin.
  apply in_map_iff in Hin. destruct Hin as (raw & <- & _).
  split; [apply build_request_overrides | split; reflexivity].
Qed.

Lemma traversal_requests_carry_no_false_override_witness :
  In (build_request zero_retry_opts (py "search_term,id") (py "bags"))
    (skipn (length (traversals (initial_world sample_heap)))
       (traversals (snd (collect_results sample_generate zero_retry_opts
                           (initial_world sample_heap)))))
  /\ overrides_from_options zero_retry_opts
       (build_request zero_retry_opts (py "search_term,id") (py "bags")).
Proof.
  assert (H : In (build_request zero_retry_opts (py "search_term,id")
                    (py "bags"))
                (skipn (length (traversals (initial_world sample_heap)))
                   (traversals
                      (snd (collect_results sample_generate zero_retry_opts
                              (initial_world sample_heap)))))).
  { right. left. reflexivity. }
  split; [exact H|].
  exact (proj1 (@traversal_requests_carry_no_false_override sample_generate
                  zero_retry_opts (initial_world sample_heap) _ H)).
Defined.

(** ** Lines 114-151 together *)




(** X19.  The action name is looked up only after the traversals: with a
    string field specification, traversals that do not fail and an action
    that is not in the registry, lines 114-151 first make every request
    and tag every record, and only then print "Invalid 'action' value:
    <name>" and exit with status 1, without calling a handler. *)
Theorem unknown_action_is_detected_after_the_traversals :
  forall (get_operators : list pystr)
         (generate_ad_archives :
            nat -> FbAdsLibraryTraversal -> list (list loc) * option pystr)
         (opts : Namespace) (f : pystr) (w : world),
    fields opts = PyStr f ->
    traversals_succeed generate_ad_archives opts (py "search_term," ++ f)
      (length (traversals w)) (search_terms_of opts) ->
    ~ In (action opts) get_operators ->
    let fs := (py "search_term," ++ f)%list in
    exists w' : world,
      collect_and_dispatch get_operators generate_ad_archives opts w
      = (Raise (SystemExit 1), w')
      /\ traversals w'
         = traversals w ++ map (request_for opts fs) (search_terms_of opts)
      /\ length (traversals w')
         = length (traversals w) + length (search_terms_of opts)
      /\ heap w'
         = tag_groups
             (yielded generate_ad_archives opts fs (length (traversals w))
                (search_terms_of opts))
             (heap w)
      /\ stdout w'
         = stdout w ++ [py "Invalid 'action' value: " ++ action opts]
      /\ handler_calls w' = handler_calls w.
Proof.
  intros ops gen opts f w Hf Hok Hact fs.
  unfold collect_and_dispatch, bind.
  rewrite (collect_results_run _ _ _ Hf Hok). fold fs.
  simpl fst. simpl snd.
  unfold dispatch_action. rewrite (proj2 (str_in_not_In _ _) Hact).
  eexists. split; [reflexivity|]. simpl.
  repeat split. now rewrite length_app, length_map.
Qed.

Lemma unknown_action_is_detected_after_the_traversals_witness :
  fields bogus_action_opts = PyStr (py "id")
  /\ traversals_succeed sample_generate bogus_action_opts
       (py "search_term,id") 0 (search_terms_of bogus_action_opts)
  /\ ~ In (action bogus_action_opts) sample_operators
  /\ exists w' : world,
       collect_and_dispatch sample_operators sample_generate
         bogus_action_opts (initial_world sample_heap)
       = (Raise (SystemExit 1), w')
       /\ map api_search_term (traversals w') = [py "shoes"; py "bags"]
       /\ stdout w' = [py "Invalid 'action' value: bogus"].
Proof.
  assert (H1 : fields bogus_action_opts = PyStr (py "id")) by reflexivity.
  assert (H2 : traversals_succeed sample_generate bogus_action_opts
                 (py "search_term," ++ py "id")
                 (length (traversals (initial_world sample_heap)))
                 (search_terms_of bogus_action_opts)).
  { simpl. repeat split. }
  assert (H3 : ~ In (action bogus_action_opts) sample_operators).
  { apply str_in_not_In. reflexivity. }
  split; [exact H1|]. split; [exact H2|]. split; [exact H3|].
  destruct (@unknown_action_is_detected_after_the_traversals
              sample_operators sample_generate bogus_action_opts (py "id")
              (initial_world sample_heap) H1 H2 H3)
    as (w' & Hrun & Htr & _ & _ & Hout & _).
  exists w'. split; [exact Hrun|]. split; [|exact Hout].
  rewrite Htr. reflexivity.
Defined.

(** ** The validators' error messages, from the tokens of the input *)

Lemma filter_filter {A} (f g : A -> bool) (l : list A) :
  filter f (filter g l) = filter (fun x => g x && f x) l.
Proof.
  induction l as [|x l IH]; simpl; [reflexivity|].
  destruct (g x); simpl; [destruct (f x)|]; now rewrite IH.
Qed.

(** The tokens the validators keep of a comma-joined list of comma-free
    strings. *)
Lemma country_list_of_join (tokens : list pystr) :
  tokens <> [] ->
  (forall t, In t tokens -> ~ In comma t) ->
  country_list_of (join (py ",") tokens)
  = filter (fun t => str_truthy (strip t)) tokens.
Proof.
  intros Hne Hno. unfold country_list_of. change (py ",") with [comma].
  now rewrite split_join.
Qed.

Lemma fields_list_of_join (tokens : list pystr) :
  tokens <> [] ->
  (forall t, In t tokens -> ~ In comma t) ->
  fields_list_of (join (py ",") tokens)
  = filter str_truthy (map strip tokens).
Proof.
  intros Hne Hno. unfold fields_list_of. change (py ",") with [comma].
  now rewrite split_join.
Qed.

Lemma validate_country_unresolved (gcc : pystr -> option pystr) (s : pystr) :
  (exists t, In t (country_list_of s) /\ gcc t = None) ->
  validate_country_param gcc s
  = Raise (ArgumentTypeError
             (py "Invalid/unsupported country code: "
              ++ join (py ",")
                   (first_seen []
                      (filter (fun x => is_none (gcc x))
                         (country_list_of s))))).
Proof.
  intros (t & Hin & Hnone).
  assert (Hl : country_list_of s <> [])
    by (intros E; rewrite E in Hin; destruct Hin).
  unfold validate_country_param.
  rewrite (country_list_input_nonempty _ Hl). simpl negb. cbv iota.
  rewrite (proj2 (list_truthy_true _) Hl). simpl negb. cbv iota.
  destruct (list_truthy (invalid_inputs_of gcc (country_list_of s))) eqn:E.
  - now rewrite invalid_inputs_keys.
  - apply list_truthy_false in E.
    exfalso. exact (invalid_inputs_empty gcc _ E t Hin Hnone).
Qed.

Lemma validate_fields_invalid (valid : pystr -> bool) (s : pystr) :
  (exists t, In t (fields_list_of s) /\ valid t = false) ->
  validate_fields_param valid s
  = Raise (ArgumentTypeError
             (py "Unsupported fields: "
              ++ join (py ",")
                   (filter (fun x => negb (valid x)) (fields_list_of s)))).
Proof.
  intros (t & Hin & Hbad).
  assert (Hl : fields_list_of s <> [])
    by (intros E; rewrite E in Hin; destruct Hin).
  assert (Hb : filter (fun x => negb (valid x)) (fields_list_of s) <> []).
  { intros E.
    assert (H : In t (filter (fun x => negb (valid x)) (fields_list_of s))).
    { apply filter_In. split; [exact Hin | now rewrite Hbad]. }
    rewrite E in H. destruct H. }
  unfold validate_fields_param. cbv zeta.
  rewrite (fields_list_input_nonempty _ Hl). simpl negb. cbv iota.
  rewrite (proj2 (list_truthy_true _) Hl). simpl negb. cbv iota.
  now rewrite (proj2 (list_truthy_true _) Hb).
Qed.

(** A boolean test for "no token holds a comma". *)
Lemma comma_free_check (l : list pystr) :
  forallb (fun t => negb (existsb (N.eqb comma) t)) l = true ->
  forall t, In t l -> ~ In comma t.
Proof.
  intros H t Ht Hc.
  apply (proj1 (forallb_forall _ l) H) in Ht.
  apply negb_true_iff in Ht.
  assert (E : existsb (N.eqb comma) t = true).
  { apply existsb_exists. exists comma. split; [exact Hc | apply N.eqb_refl]. }
  congruence.
Qed.

(** C6: let the input be the comma-joined list of any comma-free strings
    [tokens] (every input is one: it is the join of its own pieces).
    Country validator: if some non-blank token does not resolve, it raises
    one error whose message is "Invalid/unsupported country code: "
    followed by the comma-joined non-blank unresolved tokens, as written,
    in input order, each at its first occurrence; every such token is
    listed and occurs in the message.  Fields validator: if some stripped,
    non-empty token is not a valid field, it raises one error whose message
    is "Unsupported fields: " followed by the comma-joined invalid tokens,
    stripped, in input order, every occurrence; each occurs in the
    message. *)
Theorem validators_report_all_offending_tokens :
  forall (get_country_code : pystr -> option pystr)
         (is_valid_fields : pystr -> bool) (tokens : list pystr),
    tokens <> [] ->
    (forall t, In t tokens -> ~ In comma t) ->
    ((exists t, In t tokens /\ strip t <> []
                /\ get_country_code t = None) ->
     let offending :=
       filter (fun t => str_truthy (strip t) && is_none (get_country_code t))
         tokens in
     let msg := (py "Invalid/unsupported country code: "
                 ++ join (py ",") (first_seen [] offending))%list in
     validate_country_param get_country_code (join (py ",") tokens)
     = Raise (ArgumentTypeError msg)
     /\ (forall t, In t tokens -> strip t <> [] ->
                   get_country_code t = None ->
                   In t (first_seen [] offending) /\ mentions msg t)
     /\ (forall t, In t (first_seen [] offending) ->
                   In t tokens /\ get_country_code t = None)
     /\ subseq (first_seen [] offending) tokens)
    /\
    ((exists t, In t tokens /\ strip t <> []
                /\ is_valid_fields (strip t) = false) ->
     let offending :=
       filter (fun t => negb (is_valid_fields t))
         (filter str_truthy (map strip tokens)) in
     let msg := (py "Unsupported fields: " ++ join (py ",") offending)%list in
     validate_fields_param is_valid_fields (join (py ",") tokens)
     = Raise (ArgumentTypeError msg)
     /\ (forall t, In t tokens -> strip t <> [] ->
                   is_valid_fields (strip t) = false ->
                   In (strip t) offending /\ mentions msg (strip t))
     /\ (forall t, In t offending ->
                   In t (map strip tokens) /\ is_valid_fields t = false)
     /\ subseq offending (map strip tokens)).
Proof.
  intros gcc valid tokens Hne Hno. split.
  - intros (t0 & Hin0 & Hnb0 & Hnone0). cbv zeta.
    set (offending := filter (fun t => str_truthy (strip t)
                                       && is_none (gcc t)) tokens).
    assert (Hoff : forall t, In t offending
                             <-> In t tokens /\ strip t <> []
                                 /\ gcc t = None).
    { intros t. unfold offending. rewrite filter_In, andb_true_iff.
      destruct (strip t), (gcc t); simpl; intuition congruence. }
    assert (Hlisted : forall t, In t tokens -> strip t <> [] ->
                                gcc t = None ->
                                In t (first_seen [] offending)).
    { intros t H1 H2 H3.
      destruct (first_seen_complete [] offending t) as [[]|H]; [|exact H].
      apply Hoff; auto. }
    assert (Hkept : filter (fun x => is_none (gcc x))
                      (country_list_of (join (py ",") tokens))
                    = offending).
    { rewrite (country_list_of_join Hne Hno). apply filter_filter. }
    split; [|split; [|split]].
    + rewrite validate_country_unresolved; [now rewrite Hkept|].
      exists t0. rewrite (country_list_of_join Hne Hno). split; [|exact Hnone0].
      apply filter_In. split; [exact Hin0|].
      destruct (strip t0); [congruence | reflexivity].
    + intros t H1 H2 H3. split; [now apply Hlisted|].
      apply mentions_prefixed, join_mentions. now apply Hlisted.
    + intros t Ht. apply first_seen_In in Ht. apply Hoff in Ht. tauto.
    + eapply subseq_trans; [apply first_seen_subseq | apply subseq_filter].
  - intros (t0 & Hin0 & Hnb0 & Hbad0). cbv zeta.
    set (kept := filter str_truthy (map strip tokens)).
    set (offending := filter (fun t => negb (valid t)) kept).
    assert (Hkept : forall t, In t tokens -> strip t <> [] ->
                              In (strip t) kept).
    { intros t H1 H2. unfold kept. apply filter_In.
      split; [now apply in_map|].
      destruct (strip t); [congruence|reflexivity]. }
    assert (Hoff : forall t, In t tokens -> strip t <> [] ->
                             valid (strip t) = false ->
                             In (strip t) offending).
    { intros t H1 H2 H3. unfold offending. apply filter_In.
      split; [now apply Hkept | now rewrite H3]. }
    split; [|split; [|split]].
    + rewrite validate_fields_invalid;
        rewrite (fields_list_of_join Hne Hno); [reflexivity|].
      exists (strip t0). split; [now apply Hkept | exact Hbad0].
    + intros t H1 H2 H3. split; [now apply Hoff|].
      apply mentions_prefixed, join_mentions. now apply Hoff.
    + intros t Ht. unfold offending, kept in Ht.
      rewrite !filter_In, negb_true_iff in Ht. tauto.
    + eapply subseq_trans; apply subseq_filter.
Qed.

Lemma validators_report_all_offending_tokens_witness :
  [py "US"; py "ZZ"; py "YY"; py "ZZ"] <> []
  /\ (forall t, In t [py "US"; py "ZZ"; py "YY"; py "ZZ"] -> ~ In comma t)
  /\ (exists t, In t [py "US"; py "ZZ"; py "YY"; py "ZZ"] /\ strip t <> []
                /\ sample_get_country_code t = None)
  /\ validate_country_param sample_get_country_code (py "US,ZZ,YY,ZZ")
     = Raise (ArgumentTypeError
                (py "Invalid/unsupported country code: ZZ,YY"))
  /\ [py "id"; py " zz "; py "yy"; py "zz"] <> []
  /\ (forall t, In t [py "id"; py " zz "; py "yy"; py "zz"] ->
                ~ In comma t)
  /\ (exists t, In t [py "id"; py " zz "; py "yy"; py "zz"] /\ strip t <> []
                /\ sample_is_valid_fields (strip t) = false)
  /\ validate_fields_param sample_is_valid_fields (py "id, zz ,yy,zz")
     = Raise (ArgumentTypeError (py "Unsupported fields: zz,yy,zz")).
Proof.
  assert (C1 : [py "US"; py "ZZ"; py "YY"; py "ZZ"] <> []) by discriminate.
  assert (C2 : forall t, In t [py "US"; py "ZZ"; py "YY"; py "ZZ"] ->
                         ~ In comma t).
  { apply comma_free_check. reflexivity. }
  assert (C3 : exists t, In t [py "US"; py "ZZ"; py "YY"; py "ZZ"]
                         /\ strip t <> []
                         /\ sample_get_country_code t = None).
  { exists (py "ZZ"). split; [right; left; reflexivity|].
    split; [discriminate | reflexivity]. }
  assert (F1 : [py "id"; py " zz "; py "yy"; py "zz"] <> []) by discriminate.
  assert (F2 : forall t, In t [py "id"; py " zz "; py "yy"; py "zz"] ->
                         ~ In comma t).
  { apply comma_free_check. reflexivity. }
  assert (F3 : exists t, In t [py "id"; py " zz "; py "yy"; py "zz"]
                         /\ strip t <> []
                         /\ sample_is_valid_fields (strip t) = false).
  { exists (py "yy"). split; [right; right; left; reflexivity|].
    split; [discriminate | reflexivity]. }
  split; [exact C1|]. split; [exact C2|]. split; [exact C3|]. split.
  - exact (proj1 (proj1 (@validators_report_all_offending_tokens
                           sample_get_country_code sample_is_valid_fields
                           _ C1 C2) C3)).
  - split; [exact F1|]. split; [exact F2|]. split; [exact F3|].
    exact (proj1 (proj2 (@validators_report_all_offending_tokens
                           sample_get_country_code sample_is_valid_fields
                           _ F1 F2) F3)).
Defined.

(** ** An unknown action, from the command line *)

(** C9 (the code departs from the claim): for
    [-t TOKEN -f id -c US -s shoes bogus], where [bogus] is no action, the
    arguments parse and line 110 raises [AttributeError] on
    [opts.search_term], as it does for every parsed command line: lines
    140-151 are not reached, so "Invalid 'action' value: bogus" is never
    printed -- nothing reaches standard output.  The interpreter ends the
    process with status 1 after a traceback; no traversal is run and no
    handler is called. *)
Theorem unknown_action_is_never_reported :
  forall (env : argparse_env) (get_operators : list pystr)
         (generate_ad_archives :
            nat -> FbAdsLibraryTraversal -> list (list loc) * option pystr)
         (h : loc -> record),
    parse_args sample_get_country_code sample_is_valid_fields env
      bogus_action_invocation
    = Parsed
        {| access_token := py "TOKEN"; fields := PyStr (py "id");
           search_terms := Some (py "shoes"); country := py "US";
           search_page_ids := None; ad_active_status := None;
           after_date := None; batch_size := None; retry_limit := None;
           verbose := false; action := py "bogus"; args := [] |}
    /\ fst (main sample_get_country_code sample_is_valid_fields env
              get_operators generate_ad_archives bogus_action_invocation
              (initial_world h))
       = Raise (AttributeError (py "search_term"))
    /\ fst (main sample_get_country_code sample_is_valid_fields env
              get_operators generate_ad_archives bogus_action_invocation
              (initial_world h))
       <> Raise (SystemExit 1)
    /\ exit_status
         (fst (main sample_get_country_code sample_is_valid_fields env
                 get_operators generate_ad_archives bogus_action_invocation
                 (initial_world h)))
       = 1%Z
    /\ stdout (snd (main sample_get_country_code sample_is_valid_fields env
                      get_operators generate_ad_archives
                      bogus_action_invocation (initial_world h)))
       = []
    /\ stderr (snd (main sample_get_country_code sample_is_valid_fields env
                      get_operators generate_ad_archives
                      bogus_action_invocation (initial_world h)))
       = []
    /\ traversals (snd (main sample_get_country_code sample_is_valid_fields
                          env get_operators generate_ad_archives
                          bogus_action_invocation (initial_world h)))
       = []
    /\ handler_calls (snd (main sample_get_country_code
                             sample_is_valid_fields env get_operators
                             generate_ad_archives bogus_action_invocation
                             (initial_world h)))
       = [].
Proof.
  intros env ops gen h.
  assert (P : parse_args sample_get_country_code sample_is_valid_fields env
                bogus_action_invocation
              = Parsed
                  {| access_token := py "TOKEN"; fields := PyStr (py "id");
                     search_terms := Some (py "shoes"); country := py "US";
                     search_page_ids := None; ad_active_status := None;
                     after_date := None; batch_size := None;
                     retry_limit := None; verbose := false;
                     action := py "bogus"; args := [] |}) by reflexivity.
  assert (E : main sample_get_country_code sample_is_valid_fields env ops gen
                bogus_action_invocation (initial_world h)
              = (Raise (AttributeError (py "search_term")), initial_world h)).
  { unfold main. rewrite P. apply main_on_raises. }
  split; [exact P|]. rewrite E. simpl. repeat split. discriminate.
Qed.

(** ** Blank search terms, in the returned aggregate *)

(** C10, as stated, fails: with [--search-terms a,,b] and a traversal that
    hands out the same record object every time, there are three
    traversals, the second for the empty term, and the record that
    traversal yielded reads [search_term = "b"], not [""], in the
    aggregate the loop returns. *)
Lemma blank_term_record_retagged :
  search_terms double_comma_opts = Some (py "a,,b")
  /\ traversals_succeed aliasing_generate double_comma_opts
       (py "search_term,id") 0 (split comma (py "a,,b"))
  /\ fst (collect_results aliasing_generate double_comma_opts
            (initial_world sample_heap))
     = Return (py "search_term,id", [0; 0; 0])
  /\ map api_search_term
       (traversals (snd (collect_results aliasing_generate
                           double_comma_opts (initial_world sample_heap))))
     = [py "a"; py ""; py "b"]
  /\ fst (aliasing_generate 1
            (request_for double_comma_opts (py "search_term,id") (py "")))
     = [[0]]
  /\ map (heap (snd (collect_results aliasing_generate double_comma_opts
                       (initial_world sample_heap))))
       [0; 0; 0]
     = [ [(py "a", PyInt 1); (py "search_term", PyStr (py "b"))];
         [(py "a", PyInt 1); (py "search_term", PyStr (py "b"))];
         [(py "a", PyInt 1); (py "search_term", PyStr (py "b"))] ]
  /\ dict_get (py "search_term")
       (heap (snd (collect_results aliasing_generate double_comma_opts
                     (initial_world sample_heap))) 0)
     <> Some (PyStr (py "")).
Proof.
  split; [reflexivity|]. split; [simpl; repeat split|].
  split; [reflexivity|]. split; [reflexivity|]. split; [reflexivity|].
  split; [reflexivity|]. vm_compute. discriminate.
Qed.

(** C10, amended: for a non-empty [--search-terms] value, a string field
    specification and traversals that do not fail, lines 114-138 run one
    traversal per piece of [split(",")] (one more than there are commas),
    in order, each for its piece stripped; an empty or blank piece is not
    dropped: its request has the empty search term, the record objects it
    yields are part of the returned aggregate at its position, and each of
    them that no later traversal yields again reads [search_term = ""] in
    that aggregate. *)
Theorem blank_search_terms_are_traversed :
  forall (generate_ad_archives :
            nat -> FbAdsLibraryTraversal -> list (list loc) * option pystr)
         (opts : Namespace) (s f : pystr) (w : world),
    search_terms opts = Some s ->
    s <> [] ->
    fields opts = PyStr f ->
    traversals_succeed generate_ad_archives opts (py "search_term," ++ f)
      (length (traversals w)) (split comma s) ->
    let fs := (py "search_term," ++ f)%list in
    let n := length (traversals w) in
    exists (all_results : list loc) (w' : world),
      collect_results generate_ad_archives opts w
      = (Return (fs, all_results), w')
      /\ traversals w'
         = traversals w ++ map (request_for opts fs) (split comma s)
      /\ map api_search_term (skipn n (traversals w'))
         = map strip (split comma s)
      /\ length (skipn n (traversals w')) = S (count_occ N.eq_dec s comma)
      /\ forall pre raw post,
           split comma s = pre ++ raw :: post ->
           strip raw = [] ->
           let ads := concat (fst (generate_ad_archives (n + length pre)
                                     (request_for opts fs raw))) in
           let later := concat (map snd (yielded generate_ad_archives opts
                                           fs (S (n + length pre)) post)) in
           nth_error (traversals w') (n + length pre)
           = Some (request_for opts fs raw)
           /\ api_search_term (request_for opts fs raw) = []
           /\ all_results
              = concat (map snd (yielded generate_ad_archives opts fs n pre))
                ++ ads ++ later
           /\ forall ad, In ad ads -> ~ In ad later ->
                dict_get (py "search_term") (heap w' ad) = Some (PyStr []).
Proof.
  intros gen opts s f w Hs Hne Hf Hok fs n.
  assert (Hterms : search_terms_of opts = split comma s).
  { unfold search_terms_of. rewrite Hs.
    destruct s; [congruence | reflexivity]. }
  pose proof (collect_results_run gen opts w Hf) as Hrun.
  rewrite Hterms in Hrun. specialize (Hrun Hok).
  fold fs in Hrun. fold n in Hrun.
  eexists. eexists. split; [exact Hrun|]. simpl traversals.
  assert (Hskip : skipn n (traversals w ++ map (request_for opts fs)
                                            (split comma s))
                  = map (request_for opts fs) (split comma s)).
  { unfold n. rewrite skipn_app, skipn_all, Nat.sub_diag. reflexivity. }
  split; [reflexivity|]. rewrite Hskip.
  split; [now rewrite map_map|].
  split; [rewrite length_map; apply split_length|].
  intros pre raw post Hsplit Hblank. cbv zeta.
  split; [|split; [|split]].
  - rewrite Hsplit, map_app. simpl map.
    rewrite nth_error_app2 by (unfold n; lia).
    replace (n + length pre - length (traversals w)) with (length pre)
      by (unfold n; lia).
    rewrite nth_error_app2 by (rewrite length_map; lia).
    now rewrite length_map, Nat.sub_diag.
  - exact Hblank.
  - rewrite Hsplit, yielded_app. simpl yielded.
    rewrite map_app, concat_app. simpl.
    replace (n + length pre + 1) with (S (n + length pre)) by lia.
    reflexivity.
  - intros ad Had Hlater. simpl heap.
    rewrite Hsplit, yielded_app. simpl yielded. rewrite tag_groups_app.
    change (tag_groups (?g :: ?gs) ?h)
      with (tag_groups gs (tag_all (fst g) (snd g) h)).
    rewrite tag_groups_other by exact Hlater.
    simpl fst. simpl snd.
    replace (PyStr []) with (PyStr (strip raw)) by now rewrite Hblank.
    apply tag_all_get. now left.
Qed.

Lemma blank_search_terms_are_traversed_witness :
  search_terms double_comma_opts = Some (py "a,,b")
  /\ py "a,,b" <> []
  /\ fields double_comma_opts = PyStr (py "id")
  /\ traversals_succeed blank_term_generate double_comma_opts
       (py "search_term,id") 0 (split comma (py "a,,b"))
  /\ exists (all_results : list loc) (w' : world),
       collect_results blank_term_generate double_comma_opts
         (initial_world sample_heap)
       = (Return (py "search_term,id", all_results), w')
       /\ map api_search_term (traversals w') = [py "a"; py ""; py "b"]
       /\ all_results = [0]
       /\ dict_get (py "search_term") (heap w' 0) = Some (PyStr (py "")).
Proof.
  assert (H1 : search_terms double_comma_opts = Some (py "a,,b"))
    by reflexivity.
  assert (H2 : py "a,,b" <> []) by discriminate.
  assert (H3 : fields double_comma_opts = PyStr (py "id")) by reflexivity.
  assert (H4 : traversals_succeed blank_term_generate double_comma_opts
                 (py "search_term," ++ py "id")
                 (length (traversals (initial_world sample_heap)))
                 (split comma (py "a,,b"))).
  { simpl. repeat split. }
  split; [exact H1|]. split; [exact H2|]. split; [exact H3|].
  split; [exact H4|].
  destruct (@blank_search_terms_are_traversed blank_term_generate
              double_comma_opts (py "a,,b") (py "id")
              (initial_world sample_heap) H1 H2 H3 H4)
    as (all_results & w' & Hrun & _ & Hterms & _ & Hblank).
  destruct (Hblank [py "a"] (py "") [py "b"] eq_refl eq_refl)
    as (_ & _ & Hall & Htag).
  exists all_results, w'. split; [exact Hrun|].
  split; [exact Hterms|]. split; [exact Hall|].
  apply Htag; [left; reflexivity | intros []].
Defined.
